(** * Sparkify ETL (etl.py): a shallow embedding and its verified properties

    The script reads line-delimited JSON files from two directory trees,
    turns song records and activity-log records into rows of five tables and
    sends them to a PostgreSQL store through a psycopg2 cursor, committing or
    rolling back once per file.

    The embedding keeps the shape of the script: [process_song_file],
    [process_log_file], [process_data] and [main] are the four functions of
    etl.py, written in a small exception-and-trace monad.  What the script
    only calls (pandas, psycopg2, os.walk, glob) is modelled next to it:
    the store and the files are a [world] of oracles, the calendar accessors
    and the glob matcher are executable functions. *)

From Stdlib Require Import ZArith QArith List String Ascii Bool Lia.
Import ListNotations.
Open Scope string_scope.
Open Scope list_scope.
Open Scope Z_scope.

Set Implicit Arguments.

(* ------------------------------------------------------------------ *)
(** * Python values *)

(** The scalars a cell of a frame read from flat JSON records can hold, and
    the [Timestamp] that [pd.to_datetime] makes of an epoch-millisecond
    integer.  A non-integral JSON number is kept as the rational it denotes. *)
Inductive pyval : Type :=
| PNone
| PNaN
| PBool (b : bool)
| PInt (n : Z)
| PFloat (q : Q)
| PStr (s : string)
| PTimestamp (ms : Z).

(** Python truth value: [if v:]. *)
Definition truthy (v : pyval) : bool :=
  match v with
  | PNone => false
  | PNaN => true
  | PBool b => b
  | PInt n => negb (n =? 0)
  | PFloat q => negb (Qeq_bool q 0)
  | PStr s => negb (String.eqb s "")
  | PTimestamp _ => true
  end.

(** [pd.isna]: the missing values that [dropna] looks for. *)
Definition isna (v : pyval) : bool :=
  match v with
  | PNone | PNaN => true
  | _ => false
  end.

(** Elementwise comparison with a string literal, as in [df['page'] == 'NextSong']. *)
Definition eq_str (v : pyval) (lit : string) : bool :=
  match v with
  | PStr s => String.eqb s lit
  | _ => false
  end.

(** ** Hash keys

    [drop_duplicates] groups cells that hash and compare equal.  Numbers
    compare by value across [bool], [int] and [float].  Missing values are
    put in one group; how they are grouped does not show in the User rows,
    since [dropna] removes every row without a user_id. *)
Inductive hkey : Type :=
| KMissing
| KNum (num : Z) (den : positive)
| KStr (s : string)
| KTime (ms : Z).

Definition knum (q : Q) : hkey := KNum (Qnum (Qred q)) (Qden (Qred q)).

Definition key_of (v : pyval) : hkey :=
  match v with
  | PNone | PNaN => KMissing
  | PBool b => knum (if b then 1%Q else 0%Q)
  | PInt n => knum (inject_Z n)
  | PFloat q => knum q
  | PStr s => KStr s
  | PTimestamp ms => KTime ms
  end.

Definition hkey_eqb (a b : hkey) : bool :=
  match a, b with
  | KMissing, KMissing => true
  | KNum n d, KNum n' d' => (n =? n') && (d =? d')%positive
  | KStr s, KStr s' => String.eqb s s'
  | KTime t, KTime t' => t =? t'
  | _, _ => false
  end.

(** ** Column types

    A frame keeps each column in an array of one type.  [DataFrame.values]
    puts the selected columns in a single array: of their common type when
    they are all numbers, of Python objects as soon as one of them holds
    anything else, or mixes booleans with numbers.  The type of a column is
    read off its cells: integers that fit in 64 bits, floats (a missing
    number is the float NaN), booleans, or objects. *)
Inductive dtype : Type :=
| int64
| float64
| bool_
| object_.

Definition fits_int64 (n : Z) : bool :=
  (- 2 ^ 63 <=? n) && (n <? 2 ^ 63).

Definition cell_dtype (v : pyval) : dtype :=
  match v with
  | PInt n => if fits_int64 n then int64 else object_
  | PFloat _ | PNaN => float64
  | PBool _ => bool_
  | _ => object_
  end.

Definition common_dtype (a b : dtype) : dtype :=
  match a, b with
  | int64, int64 => int64
  | int64, float64 | float64, int64 | float64, float64 => float64
  | bool_, bool_ => bool_
  | _, _ => object_
  end.

(** The common type of the cells of a frame that has some. *)
Definition frame_dtype (frame : list (list pyval)) : dtype :=
  match map cell_dtype (List.concat frame) with
  | [] => object_
  | d :: ds => fold_left common_dtype ds d
  end.

(** The double nearest to an integer, ties to even: exact up to [2 ^ 53]. *)
Definition float_of_int (n : Z) : Q :=
  let a := Z.abs n in
  let k := Z.log2 a - 52 in
  if k <=? 0 then inject_Z n
  else
    let q := a / 2 ^ k in
    let r := a mod 2 ^ k in
    let half := 2 ^ (k - 1) in
    let q := if (half <? r) || ((r =? half) && Z.odd q) then q + 1 else q in
    inject_Z (Z.sgn n * (q * 2 ^ k)).

(** [astype]: only integers moved to a float array change. *)
Definition astype (d : dtype) (v : pyval) : pyval :=
  match d, v with
  | float64, PInt n => PFloat (float_of_int n)
  | _, _ => v
  end.

(** [frame.values], and [tolist()] on its rows. *)
Definition values (frame : list (list pyval)) : list (list pyval) :=
  map (map (astype (frame_dtype frame))) frame.

(** ** Timestamps

    [pd.to_datetime(x, origin='unix', unit='ms')] counts nanoseconds in 64
    bits: an instant that does not fit raises [OutOfBoundsDatetime], which
    is a [ValueError]. *)
Definition timestamp_max_ms : Z := (2 ^ 63 - 1) / 1000000.

Definition in_bounds (t : Z) : bool :=
  (- timestamp_max_ms <=? t) && (t <=? timestamp_max_ms).

(* ------------------------------------------------------------------ *)
(** * Records and frames *)

(** One line of a song file. *)
Record song_record : Type := {
  song_id : pyval;
  title : pyval;
  artist_id : pyval;
  year : pyval;
  duration : pyval;
  artist_name : pyval;
  artist_location : pyval;
  artist_latitude : pyval;
  artist_longitude : pyval
}.

(** One line of a log file; [ts] is the epoch-millisecond integer. *)
Record log_record : Type := {
  page : pyval;
  ts : Z;
  userId : pyval;
  firstName : pyval;
  lastName : pyval;
  gender : pyval;
  level : pyval;
  song : pyval;
  length : pyval;
  sessionId : pyval;
  location : pyval;
  userAgent : pyval
}.

(** What [pd.read_json(filepath, lines=True)] returns: the rows in file order,
    all carrying the columns of their kind; a file without any record parses
    to a frame without columns. *)
Inductive DataFrame : Type :=
| EmptyFrame
| SongFrame (rows : list song_record)
| LogFrame (rows : list log_record).

(** A path is the list of its components. *)
Definition path : Type := list string.

(** A directory tree; the entries of a directory are in the order in which
    the operating system lists them. *)
#[warnings="-register-all"]
Inductive node : Type :=
| File (name : string)
| Dir (name : string) (entries : list node).

(* ------------------------------------------------------------------ *)
(** * Exceptions, statements, events *)

Inductive exn : Type :=
| psycopg2_Error (detail : string)   (* psycopg2.Error and its subclasses *)
| LookupError                        (* IndexError, KeyError *)
| UnboundLocalError
| ValueError (detail : string).      (* a bad file for read_json,
                                        OutOfBoundsDatetime for to_datetime *)

(** The six statements imported from sql_queries. *)
Inductive query : Type :=
| song_table_insert
| artist_table_insert
| time_table_insert
| user_table_insert
| songplay_table_insert
| song_select.

Inductive output : Type :=
| FilesFound (num_files : nat) (filepath : path)
| FilesProcessed (i num_files : nat)
| DatabaseError (datafile : path) (func_name : string)
| ErrorDetail (e : string)
| ConnectionFailed (e : string).

(** The observable effects of the script, in the order they happen. *)
Inductive event : Type :=
| Connect
| ReadJson (filepath : path)
| Execute (q : query) (args : list pyval)
| Commit
| Rollback
| Close
| Print (o : output).

(** Everything the script talks to.  An oracle sees the history of events
    so far, so any store, faulty or not, is one of these. *)
Record world : Type := {
  cwd : path;
  cwd_entries : list node;
  read_json : path -> exn + DataFrame;
  execute_error : list event -> query -> list pyval -> option string;
  fetchone_row : list event -> option (pyval * pyval);
  commit_error : list event -> option string;
  rollback_error : list event -> option string;
  connect_error : option string;
  cursor_error : option string
}.

(* ------------------------------------------------------------------ *)
(** * The monad: exceptions over an event trace *)

(** A computation sees the history and answers with a value or an exception
    and the events it added. *)
Definition M (A : Type) : Type := list event -> (exn + A) * list event.

Definition ret {A} (a : A) : M A := fun _ => (inr a, []).

Definition raise {A} (e : exn) : M A := fun _ => (inl e, []).

Definition bind {A B} (m : M A) (f : A -> M B) : M B :=
  fun h =>
    match m h with
    | (inl e, es) => (inl e, es)
    | (inr a, es) =>
        let '(r, es') := f a (h ++ es) in (r, es ++ es')
    end.

Definition emit (ev : event) : M unit := fun _ => (inr tt, [ev]).

(** [try: body / except psycopg2.Error as e: handler e]. *)
Definition try_except_psycopg2 {A} (body : M A) (handler : string -> M A) : M A :=
  fun h =>
    match body h with
    | (inl (psycopg2_Error e), es) =>
        let '(r, es') := handler e (h ++ es) in (r, es ++ es')
    | other => other
    end.

Declare Scope py_scope.
Delimit Scope py_scope with py.
Notation "x <- m ;; k" := (bind m (fun x => k))
  (at level 61, m at next level, right associativity) : py_scope.
Notation "' pat <- m ;; k" := (bind m (fun x => match x with pat => k end))
  (at level 61, pat pattern, m at next level, right associativity) : py_scope.
Notation "m ;; k" := (bind m (fun _ => k))
  (at level 61, right associativity) : py_scope.
Open Scope py_scope.

(** [for x in xs: body x]. *)
Fixpoint for_each {A} (xs : list A) (body : A -> M unit) : M unit :=
  match xs with
  | [] => ret tt
  | x :: xs' => body x ;; for_each xs' body
  end.

Definition py_print (o : output) : M unit := emit (Print o).

Inductive connection : Type := Conn.
Inductive cursor : Type := Cur.

(* ------------------------------------------------------------------ *)
(** * Calendar accessors of a Timestamp

    [pd.to_datetime(ts, origin='unix', unit='ms')] keeps the instant; the
    [.dt] accessors break it down in the proleptic Gregorian calendar, UTC.
    The functions follow the library's routines: the 400/100/4/1-year
    breakdown of the day number, the walk over the table of month lengths,
    Sakamoto's day of the week and the estimate-and-verify ISO week. *)

Definition ms_per_day : Z := 86400000.
Definition ms_per_hour : Z := 3600000.

Definition is_leapyear (y : Z) : bool :=
  ((y mod 4 =? 0) && negb (y mod 100 =? 0)) || (y mod 400 =? 0).

(** Year and zero-based day of that year of a day number counted from
    1970-01-01. *)
Definition days_to_yearsdays (days_ : Z) : Z * Z :=
  let days_per_400years := 400 * 365 + 100 - 4 + 1 in
  let days := days_ - (365 * 30 + 7) in
  let year := 400 * (days / days_per_400years) in
  let days := days mod days_per_400years in
  let '(year, days) :=
    if days >=? 366 then
      let year := year + 100 * ((days - 1) / (100 * 365 + 25 - 1)) in
      let days := (days - 1) mod (100 * 365 + 25 - 1) in
      if days >=? 365 then
        let year := year + 4 * ((days + 1) / (4 * 365 + 1)) in
        let days := (days + 1) mod (4 * 365 + 1) in
        if days >=? 366 then
          (year + (days - 1) / 365, (days - 1) mod 365)
        else (year, days)
      else (year, days)
    else (year, days) in
  (year + 2000, days).

Definition days_per_month_table (leap : bool) : list Z :=
  [31; if leap then 29 else 28; 31; 30; 31; 30; 31; 31; 30; 31; 30; 31].

(** Month and day of the month of a zero-based day of the year. *)
Fixpoint month_and_day (month_lengths : list Z) (month days : Z) : Z * Z :=
  match month_lengths with
  | [] => (month, days + 1)
  | len :: rest =>
      if days <? len then (month, days + 1)
      else month_and_day rest (month + 1) (days - len)
  end.

Definition dt_date (t : Z) : Z * Z * Z :=
  let '(y, doy) := days_to_yearsdays (t / ms_per_day) in
  let '(m, d) := month_and_day (days_per_month_table (is_leapyear y)) 1 doy in
  (y, m, d).

Definition dt_year (t : Z) : Z := fst (fst (dt_date t)).
Definition dt_month (t : Z) : Z := snd (fst (dt_date t)).
Definition dt_day (t : Z) : Z := snd (dt_date t).
Definition dt_hour (t : Z) : Z := (t mod ms_per_day) / ms_per_hour.

Definition sakamoto_arr : list Z := [0; 3; 2; 5; 0; 3; 5; 1; 4; 6; 2; 4].

(** Monday is 0, Sunday is 6. *)
Definition dayofweek (y m d : Z) : Z :=
  let y := if m <? 3 then y - 1 else y in
  let day := (y + y / 4 - y / 100 + y / 400
              + nth (Z.to_nat (m - 1)) sakamoto_arr 0 + d) mod 7 in
  (day + 6) mod 7.

Definition month_offset (leap : bool) : list Z :=
  if leap then [0; 31; 60; 91; 121; 152; 182; 213; 244; 274; 305; 335; 366]
  else [0; 31; 59; 90; 120; 151; 181; 212; 243; 273; 304; 334; 365].

Definition get_day_of_year (y m d : Z) : Z :=
  nth (Z.to_nat (m - 1)) (month_offset (is_leapyear y)) 0 + d.

Definition get_week_of_year (y m d : Z) : Z :=
  let doy := get_day_of_year y m d in
  let dow := dayofweek y m d in
  let iso_week := (doy - 1) - dow + 3 in
  let iso_week := if iso_week >=? 0 then iso_week / 7 + 1 else iso_week in
  if iso_week <? 0 then
    if (iso_week >? -2) || ((iso_week =? -2) && is_leapyear (y - 1))
    then 53 else 52
  else if iso_week =? 53 then
    if 31 - d + dow <? 3 then 1 else 53
  else iso_week.

Definition dt_weekday (t : Z) : Z :=
  let '(y, m, d) := dt_date t in dayofweek y m d.

Definition dt_isocalendar_week (t : Z) : Z :=
  let '(y, m, d) := dt_date t in get_week_of_year y m d.

(** ** The calendar, stated from its rules

    A year has 365 days, 366 when it is divisible by 4 and not by 100, or by
    400; 1970-01-01 is day 0 and a Thursday; ISO week 1 of a year is the
    week, Monday to Sunday, of its first Thursday. *)

Definition leap (y : Z) : bool :=
  if y mod 400 =? 0 then true
  else if y mod 100 =? 0 then false
  else y mod 4 =? 0.

Definition year_length (y : Z) : Z := if leap y then 366 else 365.

Definition days_in_month (y m : Z) : Z :=
  match m with
  | 2 => if leap y then 29 else 28
  | 4 | 6 | 9 | 11 => 30
  | _ => 31
  end.

(** Days of the months before month [m = 1 + n]. *)
Fixpoint days_before_month_nat (y : Z) (n : nat) : Z :=
  match n with
  | O => 0
  | S n' => days_before_month_nat y n' + days_in_month y (Z.of_nat n)
  end.

Definition days_before_month (y m : Z) : Z :=
  days_before_month_nat y (Z.to_nat (m - 1)).

(** Day number of January 1st of year [y]. *)
Definition jan1 (y : Z) : Z :=
  365 * (y - 1970) + ((y - 1) / 4 - (y - 1) / 100 + (y - 1) / 400) - 477.

Definition epoch_day (y m d : Z) : Z :=
  jan1 y + days_before_month y m + (d - 1).

Definition valid_date (y m d : Z) : Prop :=
  1 <= m <= 12 /\ 1 <= d <= days_in_month y m.

(** What it means for [(hour, day, week, month, year, weekday)] to be the
    breakdown of the instant [t], in milliseconds since the epoch. *)
Record calendar_decomposition (t hour day week month year weekday : Z) : Prop := {
  cd_date_valid : valid_date year month day;
  cd_date_day : epoch_day year month day = t / ms_per_day;
  cd_hour_range : 0 <= hour < 24;
  cd_hour : ms_per_day * (t / ms_per_day) + ms_per_hour * hour <= t
            < ms_per_day * (t / ms_per_day) + ms_per_hour * (hour + 1);
  cd_weekday_range : 0 <= weekday <= 6;
  cd_weekday : (t / ms_per_day + 3 - weekday) mod 7 = 0;
  cd_week : exists iso_year,
      let thursday := t / ms_per_day - weekday + 3 in
      jan1 iso_year <= thursday < jan1 (iso_year + 1) /\
      week = (thursday - jan1 iso_year) / 7 + 1
}.

(* ------------------------------------------------------------------ *)
(** * The file system: os.walk, fnmatch, glob, os.path.abspath

    Paths are relative to the working directory and made of plain names.
    The tree has no symbolic links, which [os.walk] would not follow. *)

Definition node_name (e : node) : string :=
  match e with
  | File n => n
  | Dir n _ => n
  end.

Definition is_dir (e : node) : bool :=
  match e with
  | Dir _ _ => true
  | File _ => false
  end.

Definition find_entry (entries : list node) (name : string) : option node :=
  find (fun e => String.eqb (node_name e) name) entries.

(** The entries of the directory at [p], if [p] names a directory. *)
Fixpoint listdir (entries : list node) (p : path) : option (list node) :=
  match p with
  | [] => Some entries
  | name :: p' =>
      match find_entry entries name with
      | Some (Dir _ sub) => listdir sub p'
      | _ => None
      end
  end.

(** ** os.walk, top-down: the directories below and including [top]. *)
Fixpoint walk_entry (top : path) (e : node) : list path :=
  match e with
  | File _ => []
  | Dir name sub =>
      let top' := top ++ [name] in
      top' :: flat_map (walk_entry top') sub
  end.

Definition os_walk (entries : list node) (top : path) : list path :=
  match listdir entries top with
  | Some sub => top :: flat_map (walk_entry top) sub
  | None => []
  end.

(** ** fnmatch *)

Inductive token : Type :=
| TStar
| TAny
| TChar (c : ascii)
| TSet (negated : bool) (stuff : list ascii).

(** The text of a bracket expression up to its closing bracket, and what
    follows it; a bracket right after the opening one, or after the
    negation mark, is part of the text. *)
Fixpoint until_bracket (s : list ascii) : option (list ascii * list ascii) :=
  match s with
  | [] => None
  | c :: s' =>
      if Ascii.eqb c "]" then Some ([], s')
      else match until_bracket s' with
           | Some (stuff, rest) => Some (c :: stuff, rest)
           | None => None
           end
  end.

Definition split_set (s : list ascii) : option (bool * list ascii * list ascii) :=
  let '(negated, s1) :=
    match s with
    | c :: s' => if Ascii.eqb c "!" then (true, s') else (false, s)
    | [] => (false, s)
    end in
  let '(first, s2) :=
    match s1 with
    | c :: s' => if Ascii.eqb c "]" then ([c], s') else ([], s1)
    | [] => ([], s1)
    end in
  match until_bracket s2 with
  | Some (stuff, rest) => Some (negated, first ++ stuff, rest)
  | None => None
  end.

(** [fnmatch.translate]; an opening bracket that is never closed stands for
    itself. *)
Fixpoint translate (fuel : nat) (pat : list ascii) : list token :=
  match fuel with
  | O => []
  | S fuel' =>
      match pat with
      | [] => []
      | c :: rest =>
          if Ascii.eqb c "*" then TStar :: translate fuel' rest
          else if Ascii.eqb c "?" then TAny :: translate fuel' rest
          else if Ascii.eqb c "[" then
            match split_set rest with
            | Some (negated, stuff, rest') =>
                TSet negated stuff :: translate fuel' rest'
            | None => TChar c :: translate fuel' rest
            end
          else TChar c :: translate fuel' rest
      end
  end.

Definition ascii_leb (a b : ascii) : bool :=
  (nat_of_ascii a <=? nat_of_ascii b)%nat.

(** Membership in the text of a set: single characters and [lo-hi] ranges;
    a range whose ends are in the wrong order holds nothing. *)
Fixpoint in_set (c : ascii) (stuff : list ascii) : bool :=
  match stuff with
  | [] => false
  | lo :: rest =>
      match rest with
      | dash :: hi :: rest' =>
          if Ascii.eqb dash "-"
          then (ascii_leb lo c && ascii_leb c hi) || in_set c rest'
          else Ascii.eqb c lo || in_set c rest
      | _ => Ascii.eqb c lo || in_set c rest
      end
  end.

Fixpoint match_tokens (toks : list token) (s : list ascii) : bool :=
  match toks with
  | [] => match s with [] => true | _ => false end
  | TStar :: toks' =>
      (fix star (s : list ascii) : bool :=
         match_tokens toks' s ||
         match s with
         | [] => false
         | _ :: s' => star s'
         end) s
  | TAny :: toks' =>
      match s with
      | _ :: s' => match_tokens toks' s'
      | [] => false
      end
  | TChar c :: toks' =>
      match s with
      | c' :: s' => Ascii.eqb c c' && match_tokens toks' s'
      | [] => false
      end
  | TSet negated stuff :: toks' =>
      match s with
      | c' :: s' => xorb negated (in_set c' stuff) && match_tokens toks' s'
      | [] => false
      end
  end.

Definition fnmatch (name pat : string) : bool :=
  let p := list_ascii_of_string pat in
  match_tokens (translate (S (List.length p)) p) (list_ascii_of_string name).

(** ** glob *)

Definition is_magic_char (c : ascii) : bool :=
  Ascii.eqb c "*" || Ascii.eqb c "?" || Ascii.eqb c "[".

Definition has_magic (s : string) : bool :=
  existsb is_magic_char (list_ascii_of_string s).

Definition ishidden (s : string) : bool :=
  match s with
  | String c _ => Ascii.eqb c "."
  | EmptyString => false
  end.

(** [_glob1]: the names in directory [d] that match [pattern]; hidden names
    only for a hidden pattern; directories only when [dironly]. *)
Definition glob1 (entries : list node) (d : path) (pattern : string)
    (dironly : bool) : list string :=
  match listdir entries d with
  | None => []
  | Some sub =>
      let names :=
        map node_name (filter (fun e => negb dironly || is_dir e) sub) in
      let names :=
        if ishidden pattern then names
        else filter (fun n => negb (ishidden n)) names in
      filter (fun n => fnmatch n pattern) names
  end.

(** [_glob0]: a name without wildcards is kept when it exists in [d]. *)
Definition glob0 (entries : list node) (d : path) (basename : string)
    : list string :=
  match listdir entries d with
  | None => []
  | Some sub =>
      match find_entry sub basename with
      | Some _ => [basename]
      | None => []
      end
  end.

(** [_iglob] on a pattern with wildcards, given with its last component
    first: the directory part is expanded first when it has wildcards of
    its own, and is taken as it is written otherwise. *)
Fixpoint iglob (entries : list node) (dironly : bool)
    (components_rev : list string) : list path :=
  match components_rev with
  | [] => [[]]
  | basename :: dirname_rev =>
      let dirs :=
        if existsb has_magic dirname_rev
        then iglob entries true dirname_rev
        else [rev dirname_rev] in
      flat_map
        (fun d =>
           map (fun name => d ++ [name])
               (if has_magic basename
                then glob1 entries d basename dironly
                else glob0 entries d basename))
        dirs
  end.

(** [glob.glob(os.path.join(root, '*.json'))]. *)
Definition glob_json (entries : list node) (root : path) : list path :=
  iglob entries false ("*.json" :: rev root).

(** The file list that [process_data] builds. *)
Definition all_json_files (cwd_ : path) (entries : list node)
    (filepath : path) : list path :=
  flat_map (fun root => map (fun f => cwd_ ++ f) (glob_json entries root))
           (os_walk entries filepath).

Section Script.

Variable W : world.

(** ** psycopg2 and pandas calls *)

Definition cur_execute (cur : cursor) (q : query) (args : list pyval) : M unit :=
  fun h =>
    match execute_error W h q args with
    | Some detail => (inl (psycopg2_Error detail), [Execute q args])
    | None => (inr tt, [Execute q args])
    end.

Definition cur_fetchone (cur : cursor) : M (option (pyval * pyval)) :=
  fun h => (inr (fetchone_row W h), []).

Definition conn_commit (conn : connection) : M unit :=
  fun h =>
    match commit_error W h with
    | Some detail => (inl (psycopg2_Error detail), [Commit])
    | None => (inr tt, [Commit])
    end.

Definition conn_rollback (conn : connection) : M unit :=
  fun h =>
    match rollback_error W h with
    | Some detail => (inl (psycopg2_Error detail), [Rollback])
    | None => (inr tt, [Rollback])
    end.

Definition conn_close (conn : connection) : M unit := emit Close.

Definition pd_read_json (filepath : path) : M DataFrame :=
  fun _ =>
    match read_json W filepath with
    | inl e => (inl e, [ReadJson filepath])
    | inr df => (inr df, [ReadJson filepath])
    end.

(** ** process_song_file *)

(** [df[[...]]] with the song columns: a [KeyError] on a frame without them. *)
Definition song_columns (df : DataFrame) : M (list song_record) :=
  match df with
  | SongFrame rows => ret rows
  | _ => raise LookupError
  end.

(** Row [[0]] of an array: an [IndexError] when it has no row. *)
Definition values_0 {A} (rows : list A) : M A :=
  match rows with
  | r :: _ => ret r
  | [] => raise LookupError
  end.

(** The cells of a record in the columns of the two selections. *)
Definition song_fields (r : song_record) : list pyval :=
  [song_id r; title r; artist_id r; year r; duration r].

Definition artist_fields (r : song_record) : list pyval :=
  [artist_id r; artist_name r; artist_location r;
   artist_latitude r; artist_longitude r].

Definition process_song_file (cur : cursor) (filepath : path) : M unit :=
  df <- pd_read_json filepath ;;
  rows <- song_columns df ;;
  song_data <- values_0 (values (map song_fields rows)) ;;
  cur_execute cur song_table_insert song_data ;;
  rows' <- song_columns df ;;
  artist_data <- values_0 (values (map artist_fields rows')) ;;
  cur_execute cur artist_table_insert artist_data.

(** ** process_log_file *)

(** [df['page']] and the other log columns: a [KeyError] on a frame without
    them. *)
Definition log_columns (df : DataFrame) : M (list log_record) :=
  match df with
  | LogFrame rows => ret rows
  | _ => raise LookupError
  end.

(** The rows of a frame built from equally long columns, as [iterrows]
    yields them. *)
Fixpoint frame_rows (n : nat) (columns : list (list pyval)) : list (list pyval) :=
  match n with
  | O => []
  | S n' => map (hd PNaN) columns :: frame_rows n' (map (@tl pyval) columns)
  end.

Definition user_columns (r : log_record) : list pyval :=
  [userId r; firstName r; lastName r; gender r; level r].

(** [drop_duplicates(subset=...)], keeping the first row of each key. *)
Fixpoint drop_duplicates_from {A} (seen : list hkey) (subset : A -> pyval)
    (rows : list A) : list A :=
  match rows with
  | [] => []
  | r :: rest =>
      let k := key_of (subset r) in
      if existsb (hkey_eqb k) seen
      then drop_duplicates_from seen subset rest
      else r :: drop_duplicates_from (k :: seen) subset rest
  end.

Definition drop_duplicates {A} (subset : A -> pyval) (rows : list A) : list A :=
  drop_duplicates_from [] subset rows.

Definition dropna (rows : list (list pyval)) : list (list pyval) :=
  filter (fun row => negb (existsb isna row)) rows.

Definition column_userId (row : list pyval) : pyval := hd PNaN row.

Definition out_of_bounds : exn :=
  ValueError "Out of bounds nanosecond timestamp".

(** [pd.to_datetime] of one epoch-millisecond integer, and of a column of
    them: the column is converted as a whole, so one instant out of bounds
    fails the call. *)
Definition pd_to_datetime (x : Z) : M pyval :=
  if in_bounds x then ret (PTimestamp x) else raise out_of_bounds.

Definition pd_to_datetime_column (xs : list Z) : M (list Z) :=
  if forallb in_bounds xs then ret xs else raise out_of_bounds.

(** [df[filter]]: the records of the NextSong action. *)
Definition df_time_table (rows : list log_record) : list log_record :=
  filter (fun r => eq_str (page r) "NextSong") rows.

(** The frame of the Time columns of the instants [t]. *)
Definition time_df (t : list Z) : list (list pyval) :=
  let time_data :=
    [map PTimestamp t;
     map (fun x => PInt (dt_hour x)) t;
     map (fun x => PInt (dt_day x)) t;
     map (fun x => PInt (dt_isocalendar_week x)) t;
     map (fun x => PInt (dt_month x)) t;
     map (fun x => PInt (dt_year x)) t;
     map (fun x => PInt (dt_weekday x)) t] in
  frame_rows (List.length t) time_data.

Definition user_rows (rows : list log_record) : list (list pyval) :=
  let user_df := map user_columns rows in
  let user_df := drop_duplicates column_userId user_df in
  dropna user_df.

Definition songplay_data (row : log_record)
    (songplay_ts songplay_userId songid artistid : pyval) : list pyval :=
  [sessionId row; songplay_ts; songplay_userId; level row;
   songid; artistid; location row; userAgent row].

(** The body of the songplay loop, for one record: the timestamp is
    converted after the lookup, whether or not a row will be sent. *)
Definition songplay_step (cur : cursor) (row : log_record) : M unit :=
  cur_execute cur song_select [song row; length row] ;;
  results <- cur_fetchone cur ;;
  let '(songid, artistid) :=
    match results with
    | Some (s, a) => (s, a)
    | None => (PNone, PNone)
    end in
  songplay_ts <- pd_to_datetime (ts row) ;;
  let songplay_userId := if truthy (userId row) then userId row else PNone in
  if truthy songplay_userId && truthy songid && truthy artistid
  then cur_execute cur songplay_table_insert
                   (songplay_data row songplay_ts songplay_userId
                                  songid artistid)
  else ret tt.

Definition process_log_file (cur : cursor) (filepath : path) : M unit :=
  df <- pd_read_json filepath ;;
  rows <- log_columns df ;;
  t <- pd_to_datetime_column (map ts (df_time_table rows)) ;;
  for_each (time_df t)
           (fun row => cur_execute cur time_table_insert row) ;;
  for_each (user_rows rows)
           (fun row => cur_execute cur user_table_insert row) ;;
  for_each rows (songplay_step cur).

(** ** process_data *)

(** A function value with its [__name__]. *)
Record transformer : Type := {
  func_name : string;
  func_call : cursor -> path -> M unit
}.

(** The body of the loop over files, for the [i]-th file of [num_files]. *)
Definition process_one (cur : cursor) (conn : connection) (func : transformer)
    (num_files : nat) (i : nat) (datafile : path) : M unit :=
  try_except_psycopg2
    (func_call func cur datafile ;;
     conn_commit conn ;;
     py_print (FilesProcessed i num_files))
    (fun e =>
       py_print (DatabaseError datafile (func_name func)) ;;
       py_print (ErrorDetail e) ;;
       conn_rollback conn).

(** [for i, datafile in enumerate(all_files, start=i)]. *)
Fixpoint process_files (cur : cursor) (conn : connection) (func : transformer)
    (num_files : nat) (i : nat) (all_files : list path) : M unit :=
  match all_files with
  | [] => ret tt
  | datafile :: rest =>
      process_one cur conn func num_files i datafile ;;
      process_files cur conn func num_files (S i) rest
  end.

Definition process_data (cur : cursor) (conn : connection) (filepath : path)
    (func : transformer) : M unit :=
  let all_files := all_json_files (cwd W) (cwd_entries W) filepath in
  let num_files := List.length all_files in
  py_print (FilesFound num_files filepath) ;;
  process_files cur conn func num_files 1%nat all_files.

(** ** main *)

Definition song_transformer : transformer :=
  {| func_name := "process_song_file"; func_call := process_song_file |}.

Definition log_transformer : transformer :=
  {| func_name := "process_log_file"; func_call := process_log_file |}.

(** The local variables of [main]; a name is bound once its assignment has
    run. *)
Record locals : Type := {
  local_conn : option connection;
  local_cur : option cursor
}.

Definition load_local {A} (v : option A) : M A :=
  match v with
  | Some a => ret a
  | None => raise UnboundLocalError
  end.

(** The [try] block of [main]: the two assignments, with the names they have
    bound when the block is left and the psycopg2 error that ended it, if any. *)
Definition connect_block : M (locals * option string) :=
  fun _ =>
    match connect_error W with
    | Some e => (inr ({| local_conn := None; local_cur := None |}, Some e), [])
    | None =>
        match cursor_error W with
        | Some e =>
            (inr ({| local_conn := Some Conn; local_cur := None |}, Some e),
             [Connect])
        | None =>
            (inr ({| local_conn := Some Conn; local_cur := Some Cur |}, None),
             [Connect])
        end
    end.

Definition main : M unit :=
  '(vars, failure) <- connect_block ;;
  match failure with
  | Some e => py_print (ConnectionFailed e)
  | None => ret tt
  end ;;
  cur <- load_local (local_cur vars) ;;
  conn <- load_local (local_conn vars) ;;
  process_data cur conn ["data"; "song_data"] song_transformer ;;
  cur <- load_local (local_cur vars) ;;
  conn <- load_local (local_conn vars) ;;
  process_data cur conn ["data"; "log_data"] log_transformer ;;
  conn <- load_local (local_conn vars) ;;
  conn_close conn.

End Script.

(* ------------------------------------------------------------------ *)
(** * Reading a trace *)

Definition query_eqb (a b : query) : bool :=
  match a, b with
  | song_table_insert, song_table_insert
  | artist_table_insert, artist_table_insert
  | time_table_insert, time_table_insert
  | user_table_insert, user_table_insert
  | songplay_table_insert, songplay_table_insert
  | song_select, song_select => true
  | _, _ => false
  end.

(** The parameter lists with which statement [q] was executed, in order. *)
Definition executed (q : query) (es : list event) : list (list pyval) :=
  flat_map (fun ev =>
              match ev with
              | Execute q' args => if query_eqb q q' then [args] else []
              | _ => []
              end) es.

(** The events of the songplay loop are lookups and songplay inserts. *)
Definition songplay_event (ev : event) : Prop :=
  exists args, ev = Execute song_select args
            \/ ev = Execute songplay_table_insert args.

(** Number of records of a frame. *)
Definition frame_length (df : DataFrame) : nat :=
  match df with
  | EmptyFrame => O
  | SongFrame rows => List.length rows
  | LogFrame rows => List.length rows
  end.

(** What [song_data] and [artist_data] hold for a frame with a record. *)
Definition song_row (rows : list song_record) : list pyval :=
  hd [] (values (map song_fields rows)).

Definition artist_row (rows : list song_record) : list pyval :=
  hd [] (values (map artist_fields rows)).

(** The Time rows that [process_log_file] has to send for a log file once
    [pd_to_datetime_column] has converted its NextSong timestamps; the
    conversion, which fails on a timestamp out of bounds, is a step of
    [process_log_file]. *)
Definition time_rows (rows : list log_record) : list (list pyval) :=
  time_df (map ts (df_time_table rows)).

(* ------------------------------------------------------------------ *)
(** * The rows the specification asks for *)


(** Every element with the elements before it. *)
Fixpoint with_prefixes {A} (before : list A) (l : list A) : list (list A * A) :=
  match l with
  | [] => []
  | x :: l' => (before, x) :: with_prefixes (before ++ [x]) l'
  end.

Definition same_user (a b : log_record) : bool :=
  hkey_eqb (key_of (userId a)) (key_of (userId b)).

(** User rows by the words of the specification: the records whose user_id
    occurs in no earlier record of the file and whose User fields are all
    present, in file order, projected on the User fields. *)
Definition spec_user_rows (rows : list log_record) : list (list pyval) :=
  map (fun br => user_columns (snd br))
      (filter (fun br =>
                 forallb (fun r' => negb (same_user r' (snd br))) (fst br)
                 && forallb (fun v => negb (isna v)) (user_columns (snd br)))
              (with_prefixes [] rows)).

(** A Time row and the record it comes from. *)
Definition time_row_of (r : log_record) (row : list pyval) : Prop :=
  exists hour day week month year_ weekday,
    row = [PTimestamp (ts r); PInt hour; PInt day; PInt week;
           PInt month; PInt year_; PInt weekday]
    /\ calendar_decomposition (ts r) hour day week month year_ weekday.

(** The files below a directory entry whose name matches [*.json], with
    their paths: what the walker is meant to find. *)
Fixpoint json_files_below (top : path) (e : node) : list path :=
  match e with
  | File name =>
      if fnmatch name "*.json" && negb (ishidden name)
      then [top ++ [name]] else []
  | Dir name sub => flat_map (json_files_below (top ++ [name])) sub
  end.

(** Names that are unique within their directory and, for directories,
    free of wildcard characters, at every depth. *)
Fixpoint unique_names (names : list string) : bool :=
  match names with
  | [] => true
  | n :: rest => negb (existsb (String.eqb n) rest) && unique_names rest
  end.

Fixpoint plain_entry (e : node) : bool :=
  match e with
  | File _ => true
  | Dir name sub =>
      negb (has_magic name)
      && unique_names (map node_name sub)
      && forallb plain_entry sub
  end.

Definition plain_directory (sub : list node) : bool :=
  unique_names (map node_name sub) && forallb plain_entry sub.

(* ------------------------------------------------------------------ *)
(** * Sample data *)

Module Sample.

(** The song file and the log record of the end-to-end scenarios. *)
Definition song_S1 : song_record :=
  {| song_id := PStr "S1"; title := PStr "T"; artist_id := PStr "A1";
     year := PInt 2000; duration := PFloat (361 # 2);
     artist_name := PStr "N"; artist_location := PStr "L";
     artist_latitude := PFloat 1; artist_longitude := PFloat 2 |}.

Definition log_10 : log_record :=
  {| page := PStr "NextSong"; ts := 1541121934796; userId := PStr "10";
     firstName := PStr "A"; lastName := PStr "B"; gender := PStr "F";
     level := PStr "free"; song := PStr "T"; length := PFloat (361 # 2);
     sessionId := PInt 5; location := PStr "X"; userAgent := PStr "Y" |}.

(** The same user, logged before with the first name missing. *)
Definition log_10_anonymous : log_record :=
  {| page := PStr "Home"; ts := 1541121000000; userId := PStr "10";
     firstName := PNone; lastName := PStr "B"; gender := PStr "F";
     level := PStr "free"; song := PNone; length := PNaN;
     sessionId := PInt 5; location := PStr "X"; userAgent := PStr "Y" |}.

Definition home : path := ["home"; "student"].

Definition song_S2 : song_record :=
  {| song_id := PStr "S2"; title := PStr "U"; artist_id := PStr "A1";
     year := PInt 2001; duration := PFloat (200 # 1);
     artist_name := PStr "N"; artist_location := PStr "L";
     artist_latitude := PNaN; artist_longitude := PNaN |}.

Definition tree : list node :=
  [Dir "data"
     [Dir "song_data"
        [Dir "A" [File "empty.json";
                  Dir "B" [File "s1.json"; File "s2.json"; File "notes.txt"]]];
      Dir "log_data" [File "events.json"; File "twice.json"]]].

Definition file_empty : path := home ++ ["data"; "song_data"; "A"; "empty.json"].
Definition file_s1 : path := home ++ ["data"; "song_data"; "A"; "B"; "s1.json"].
Definition file_s2 : path := home ++ ["data"; "song_data"; "A"; "B"; "s2.json"].
Definition file_events : path := home ++ ["data"; "log_data"; "events.json"].
Definition file_twice : path := home ++ ["data"; "log_data"; "twice.json"].

Definition path_eqb (a b : path) : bool :=
  if list_eq_dec string_dec a b then true else false.

Definition files (p : path) : exn + DataFrame :=
  if path_eqb p file_empty then inr EmptyFrame
  else if path_eqb p file_s1 then inr (SongFrame [song_S1])
  else if path_eqb p file_s2 then inr (SongFrame [song_S2])
  else if path_eqb p file_events then inr (LogFrame [log_10])
  else if path_eqb p file_twice then inr (LogFrame [log_10_anonymous; log_10])
  else inl (ValueError "Expected object or value").

(** A store that holds song S1: the lookup answers for its title and
    duration. *)
Definition lookup_S1 (h : list event) : option (pyval * pyval) :=
  match last h Close with
  | Execute song_select [PStr t; PFloat d] =>
      if String.eqb t "T" && Qeq_bool d (361 # 2)
      then Some (PStr "S1", PStr "A1") else None
  | _ => None
  end.

(** A healthy store. *)
Definition healthy : world :=
  {| cwd := home; cwd_entries := tree; read_json := files;
     execute_error := fun _ _ _ => None;
     fetchone_row := lookup_S1;
     commit_error := fun _ => None;
     rollback_error := fun _ => None;
     connect_error := None; cursor_error := None |}.

(** A store that refuses to insert song S1. *)
Definition refusing_S1 : world :=
  {| cwd := home; cwd_entries := tree; read_json := files;
     execute_error := fun _ q args =>
       match q, args with
       | song_table_insert, PStr id :: _ =>
           if String.eqb id "S1" then Some "duplicate key value" else None
       | _, _ => None
       end;
     fetchone_row := lookup_S1;
     commit_error := fun _ => None;
     rollback_error := fun _ => None;
     connect_error := None; cursor_error := None |}.


(** No server is listening. *)
Definition unreachable : world :=
  {| cwd := home; cwd_entries := tree; read_json := files;
     execute_error := fun _ _ _ => None;
     fetchone_row := lookup_S1;
     commit_error := fun _ => None;
     rollback_error := fun _ => None;
     connect_error := Some "could not connect to server";
     cursor_error := None |}.

(** A song directory with a bracket in its name. *)
Definition bracket_tree : list node :=
  [Dir "data" [Dir "song_data" [Dir "a[1]" [File "x.json"]]]].

End Sample.

(* ------------------------------------------------------------------ *)
(** * Outcomes in a trace *)

(** The events a transformer can add: a file read or a statement. *)
Definition data_event (ev : event) : Prop :=
  match ev with
  | ReadJson _ | Execute _ _ => True
  | _ => False
  end.

Definition is_progress (ev : event) : bool :=
  match ev with
  | Print (FilesProcessed _ _) => true
  | _ => false
  end.

Definition is_report (ev : event) : bool :=
  match ev with
  | Print (DatabaseError _ _) => true
  | _ => false
  end.

Definition is_commit (ev : event) : bool :=
  match ev with
  | Commit => true
  | _ => false
  end.

Definition is_rollback (ev : event) : bool :=
  match ev with
  | Rollback => true
  | _ => false
  end.

Definition count (p : event -> bool) (es : list event) : nat :=
  List.length (filter p es).

(** What was printed, in order. *)
Definition printed (es : list event) : list output :=
  flat_map (fun ev => match ev with Print o => [o] | _ => [] end) es.

(** The parameters of the lookup for a record. *)
Definition lookup_args (r : log_record) : list pyval :=
  [song r; length r].

(** A Songplay row and the record it comes from. *)
Definition songplay_row_of (r : log_record) (row : list pyval) : Prop :=
  exists songid artistid,
    row = [sessionId r; PTimestamp (ts r); userId r; level r;
           songid; artistid; location r; userAgent r]
    /\ truthy (userId r) = true
    /\ truthy songid = true
    /\ truthy artistid = true.

(** A Time row whose fields are within the bounds of a clock and a
    calendar. *)
Definition time_row_in_range (row : list pyval) : Prop :=
  exists t hour day week month year_ weekday,
    row = [PTimestamp t; PInt hour; PInt day; PInt week;
           PInt month; PInt year_; PInt weekday]
    /\ 0 <= hour <= 23 /\ 1 <= day <= 31 /\ 1 <= week <= 53
    /\ 1 <= month <= 12 /\ 0 <= weekday <= 6.

(** Files that hold what their transformer expects: a song file with at
    least one record, a log file with the log columns and timestamps that
    [pd.to_datetime] can hold. *)
Definition proper_song_file (W : world) (f : path) : Prop :=
  exists r rest, read_json W f = inr (SongFrame (r :: rest)).

Definition proper_log_file (W : world) (f : path) : Prop :=
  exists rows,
    read_json W f = inr (LogFrame rows)
    /\ forallb in_bounds (map ts rows) = true.

(** A store that accepts every statement and every commit. *)
Definition accepting (W : world) : Prop :=
  (forall h q args, execute_error W h q args = None)
  /\ (forall h, commit_error W h = None).

(** The guard of the songplay insert, for a record and the answer to its
    lookup, and the row that is sent when it holds. *)
Definition songplay_wanted (r : log_record) (results : option (pyval * pyval))
    : bool :=
  match results with
  | Some (songid, artistid) =>
      truthy (userId r) && truthy songid && truthy artistid
  | None => false
  end.

Definition songplay_row (r : log_record) (results : option (pyval * pyval))
    : list pyval :=
  match results with
  | Some (songid, artistid) =>
      [sessionId r; PTimestamp (ts r); userId r; level r;
       songid; artistid; location r; userAgent r]
  | None => []
  end.


(** The events of one turn of the loop over files, for the [i]-th file of
    [num_files]: what the transformer did and then either the commit and
    the progress line, or, after a store error of the transformer or of the
    commit, the two lines of the report and the rollback. *)
Definition processed (num_files i : nat) (es : list event) : Prop :=
  exists data,
    Forall data_event data
    /\ es = data ++ [Commit; Print (FilesProcessed i num_files)].

Definition reported (name : string) (datafile : path) (es : list event)
    : Prop :=
  exists data e,
    Forall data_event data
    /\ (es = data ++ [Print (DatabaseError datafile name);
                      Print (ErrorDetail e); Rollback]
        \/ es = data ++ [Commit; Print (DatabaseError datafile name);
                         Print (ErrorDetail e); Rollback]).

Definition file_outcome (name : string) (num_files : nat)
    (turn : nat * path) (es : list event) : Prop :=
  processed num_files (fst turn) es \/ reported name (snd turn) es.

(** More sample worlds. *)
Module Faulty.

(** The connection opens but no cursor can be made. *)
Definition no_cursor : world :=
  {| cwd := Sample.home; cwd_entries := Sample.tree;
     read_json := Sample.files;
     execute_error := fun _ _ _ => None;
     fetchone_row := Sample.lookup_S1;
     commit_error := fun _ => None;
     rollback_error := fun _ => None;
     connect_error := None;
     cursor_error := Some "connection already closed" |}.

(** A store that refuses to insert song S1 and has lost the connection by
    the time of the rollback. *)
Definition rollback_fails : world :=
  {| cwd := Sample.home; cwd_entries := Sample.tree;
     read_json := Sample.files;
     execute_error := execute_error Sample.refusing_S1;
     fetchone_row := Sample.lookup_S1;
     commit_error := fun _ => None;
     rollback_error := fun _ => Some "connection already closed";
     connect_error := None; cursor_error := None |}.

(** A store that refuses every lookup. *)
Definition no_lookup : world :=
  {| cwd := Sample.home; cwd_entries := Sample.tree;
     read_json := Sample.files;
     execute_error := fun _ q _ =>
       match q with
       | song_select => Some "relation songs does not exist"
       | _ => None
       end;
     fetchone_row := fun _ => None;
     commit_error := fun _ => None;
     rollback_error := fun _ => None;
     connect_error := None; cursor_error := None |}.

(** A log directory that holds a directory named like a JSON file, and a
    file that is not line-delimited JSON. *)
Definition odd_tree : list node :=
  [Dir "data"
     [Dir "song_data" [];
      Dir "log_data" [Dir "2018.json" [File "events.json"];
                      File "broken.json"]]].

Definition odd_files : world :=
  {| cwd := Sample.home; cwd_entries := odd_tree;
     read_json := Sample.files;
     execute_error := fun _ _ _ => None;
     fetchone_row := Sample.lookup_S1;
     commit_error := fun _ => None;
     rollback_error := fun _ => None;
     connect_error := None; cursor_error := None |}.

(** Another user, and the first user again after an upgrade. *)
Definition log_11 : log_record :=
  {| page := PStr "Home"; ts := 1541122000000; userId := PStr "11";
     firstName := PStr "C"; lastName := PStr "D"; gender := PStr "M";
     level := PStr "free"; song := PNone; length := PNaN;
     sessionId := PInt 6; location := PStr "X"; userAgent := PStr "Y" |}.

Definition log_10_paid : log_record :=
  {| page := PStr "NextSong"; ts := 1541123000000; userId := PStr "10";
     firstName := PStr "A"; lastName := PStr "B"; gender := PStr "F";
     level := PStr "paid"; song := PStr "T"; length := PFloat (361 # 2);
     sessionId := PInt 7; location := PStr "X"; userAgent := PStr "Y" |}.

(** A healthy store whose log files hold two users, one of them twice. *)
Definition upgrade : world :=
  {| cwd := Sample.home; cwd_entries := Sample.tree;
     read_json := fun p =>
       if Sample.path_eqb p Sample.file_events
       then inr (LogFrame [Sample.log_10; log_11])
       else if Sample.path_eqb p Sample.file_twice
       then inr (LogFrame [Sample.log_10; log_11; log_10_paid])
       else Sample.files p;
     execute_error := fun _ _ _ => None;
     fetchone_row := Sample.lookup_S1;
     commit_error := fun _ => None;
     rollback_error := fun _ => None;
     connect_error := None; cursor_error := None |}.


(** A user whose first record lacks the first name, and who comes back on
    another page, with a song title and a length all the same. *)
Definition log_12_anonymous : log_record :=
  {| page := PStr "NextSong"; ts := 1541122500000; userId := PStr "12";
     firstName := PNone; lastName := PStr "E"; gender := PStr "F";
     level := PStr "free"; song := PStr "V"; length := PFloat (100 # 1);
     sessionId := PInt 8; location := PStr "X"; userAgent := PStr "Y" |}.

Definition log_12 : log_record :=
  {| page := PStr "Home"; ts := 1541124000000; userId := PStr "12";
     firstName := PStr "G"; lastName := PStr "E"; gender := PStr "F";
     level := PStr "free"; song := PStr "T"; length := PFloat (361 # 2);
     sessionId := PInt 8; location := PStr "X"; userAgent := PStr "Y" |}.

(** A visitor who is not logged in: the user_id is the empty string. *)
Definition log_guest : log_record :=
  {| page := PStr "NextSong"; ts := 1541125000000; userId := PStr "";
     firstName := PNone; lastName := PNone; gender := PNone;
     level := PStr "free"; song := PStr "T"; length := PFloat (361 # 2);
     sessionId := PInt 9; location := PStr "X"; userAgent := PStr "Y" |}.

Definition mixed_log : list log_record :=
  [Sample.log_10; log_12_anonymous; log_11; log_10_paid; log_12; log_guest].

(** A healthy store and a log file with users seen twice, missing values
    and pages of several kinds. *)
Definition mixed : world :=
  {| cwd := Sample.home; cwd_entries := Sample.tree;
     read_json := fun p =>
       if Sample.path_eqb p Sample.file_events
       then inr (LogFrame mixed_log)
       else Sample.files p;
     execute_error := fun _ _ _ => None;
     fetchone_row := Sample.lookup_S1;
     commit_error := fun _ => None;
     rollback_error := fun _ => None;
     connect_error := None; cursor_error := None |}.

(** The same files and a store that refuses the second Time row. *)
Definition refusing_time : world :=
  {| cwd := Sample.home; cwd_entries := Sample.tree;
     read_json := read_json mixed;
     execute_error := fun h q _ =>
       match q, last h Close with
       | time_table_insert, Execute time_table_insert _ =>
           Some "duplicate key value"
       | _, _ => None
       end;
     fetchone_row := Sample.lookup_S1;
     commit_error := fun _ => None;
     rollback_error := fun _ => None;
     connect_error := None; cursor_error := None |}.

(** A record stamped in the year 2286, beyond what a Timestamp holds. *)
Definition log_2286 : log_record :=
  {| page := PStr "NextSong"; ts := 10000000000000; userId := PStr "10";
     firstName := PStr "A"; lastName := PStr "B"; gender := PStr "F";
     level := PStr "free"; song := PStr "T"; length := PFloat (361 # 2);
     sessionId := PInt 5; location := PStr "X"; userAgent := PStr "Y" |}.

(** The same record under another page, so that it is not a Time row. *)
Definition log_2286_home : log_record :=
  {| page := PStr "Home"; ts := 10000000000000; userId := PStr "10";
     firstName := PStr "A"; lastName := PStr "B"; gender := PStr "F";
     level := PStr "free"; song := PStr "T"; length := PFloat (361 # 2);
     sessionId := PInt 5; location := PStr "X"; userAgent := PStr "Y" |}.

Definition far_future : world :=
  {| cwd := Sample.home; cwd_entries := Sample.tree;
     read_json := fun p =>
       if Sample.path_eqb p Sample.file_events
       then inr (LogFrame [log_2286])
       else if Sample.path_eqb p Sample.file_twice
       then inr (LogFrame [log_2286_home])
       else Sample.files p;
     execute_error := fun _ _ _ => None;
     fetchone_row := Sample.lookup_S1;
     commit_error := fun _ => None;
     rollback_error := fun _ => None;
     connect_error := None; cursor_error := None |}.



(** A healthy store and a tree whose files all hold records. *)
Definition tidy_tree : list node :=
  [Dir "data"
     [Dir "song_data" [Dir "A" [Dir "B" [File "s1.json"; File "s2.json"]]];
      Dir "log_data" [File "events.json"]]].

Definition tidy : world :=
  {| cwd := Sample.home; cwd_entries := tidy_tree;
     read_json := Sample.files;
     execute_error := fun _ _ _ => None;
     fetchone_row := Sample.lookup_S1;
     commit_error := fun _ => None;
     rollback_error := fun _ => None;
     connect_error := None; cursor_error := None |}.

End Faulty.



(* ------------------------------------------------------------------ *)
(** * The calendar accessors are correct *)

Section Calendar.

(** ** Tactics for the case analyses *)

(** Boolean comparisons in the context, as propositions. *)
Ltac zbool :=
  repeat match goal with
  | H : (_ >=? _) = true |- _ => apply Z.geb_le in H
  | H : (_ >=? _) = false |- _ => rewrite Z.geb_leb in H; apply Z.leb_gt in H
  | H : (_ >? _) = true |- _ => rewrite Z.gtb_ltb in H; apply Z.ltb_lt in H
  | H : (_ >? _) = false |- _ => rewrite Z.gtb_ltb in H; apply Z.ltb_ge in H
  | H : (_ <? _) = true |- _ => apply Z.ltb_lt in H
  | H : (_ <? _) = false |- _ => apply Z.ltb_ge in H
  | H : (_ <=? _) = true |- _ => apply Z.leb_le in H
  | H : (_ <=? _) = false |- _ => apply Z.leb_gt in H
  | H : (_ =? _) = true |- _ => apply Z.eqb_eq in H
  | H : (_ =? _) = false |- _ => apply Z.eqb_neq in H
  end.

(** Closed table indices, evaluated. *)
Ltac eval_to_nat :=
  repeat match goal with
  | |- context [Z.to_nat ?e] =>
      let n := eval vm_compute in (Z.to_nat e) in
      change (Z.to_nat e) with n
  end.

Ltac norm_month :=
  repeat match goal with
  | |- context [days_in_month ?y ?m] =>
      let m' := eval vm_compute in m in
      progress change (days_in_month y m) with (days_in_month y m')
  end.

(** The six leap-count quotients of a year, as unknowns. *)
Ltac forget_divisions y :=
  generalize dependent (y / 4); generalize dependent (y / 100);
  generalize dependent (y / 400); generalize dependent ((y - 1) / 4);
  generalize dependent ((y - 1) / 100); generalize dependent ((y - 1) / 400);
  intros.

Ltac split_comparisons :=
  repeat match goal with
  | |- context [Z.geb ?a ?b] => destruct (Z.geb a b) eqn:?
  | |- context [Z.gtb ?a ?b] => destruct (Z.gtb a b) eqn:?
  | |- context [Z.ltb ?a ?b] => destruct (Z.ltb a b) eqn:?
  | |- context [Z.eqb ?a ?b] => destruct (Z.eqb a b) eqn:?
  end.

(** ** Years *)

Lemma leap_cases y :
  (leap y = true /\ y mod 4 = 0 /\ (y mod 100 <> 0 \/ y mod 400 = 0)) \/
  (leap y = false /\ (y mod 4 <> 0 \/ (y mod 100 = 0 /\ y mod 400 <> 0))).
Proof.
  unfold leap.
  destruct (y mod 400 =? 0) eqn:E400;
    [|destruct (y mod 100 =? 0) eqn:E100; [|destruct (y mod 4 =? 0) eqn:E4]];
    zbool; [left | right | left | right]; repeat split; try reflexivity;
    Z.div_mod_to_equations; lia.
Qed.

Lemma leap_is_leapyear y : is_leapyear y = leap y.
Proof.
  unfold is_leapyear, leap.
  destruct (y mod 400 =? 0) eqn:E400; destruct (y mod 100 =? 0) eqn:E100;
    destruct (y mod 4 =? 0) eqn:E4; simpl; try reflexivity;
    zbool; exfalso; Z.div_mod_to_equations; lia.
Qed.

Lemma year_length_bounds y : 365 <= year_length y <= 366.
Proof. unfold year_length. destruct (leap y); lia. Qed.

(** The leap years up to [y] are those before [y], and [y] if it is one. *)
Lemma leap_count_succ y :
  y / 4 - y / 100 + y / 400 =
  (y - 1) / 4 - (y - 1) / 100 + (y - 1) / 400 + (if leap y then 1 else 0).
Proof.
  destruct (leap_cases y) as [(-> & L)|(-> & L)];
    Z.div_mod_to_equations; lia.
Qed.

(** January 1st of the next year comes a year's length later. *)
Lemma jan1_succ y : jan1 (y + 1) = jan1 y + year_length y.
Proof.
  unfold jan1, year_length. pose proof (leap_count_succ y) as H.
  replace (y + 1 - 1) with y by lia.
  destruct (leap y); lia.
Qed.

(** The year breakdown finds the year that holds the day, and the day's
    place in it. *)
Lemma days_to_yearsdays_spec z y doy :
  days_to_yearsdays z = (y, doy) ->
  jan1 y + doy = z /\ 0 <= doy < year_length y.
Proof.
  unfold days_to_yearsdays. cbv zeta.
  change (400 * 365 + 100 - 4 + 1) with 146097.
  change (365 * 30 + 7) with 10957.
  change (100 * 365 + 25 - 1) with 36524.
  change (4 * 365 + 1) with 1461.
  intros H. unfold year_length.
  destruct (leap_cases y) as [(-> & L)|(-> & L)];
    (destruct (_ >=? 366) eqn:E1 in H;
     [ destruct (_ >=? 365) eqn:E2 in H;
       [ destruct (_ >=? 366) eqn:E3 in H | ] | ]);
    apply pair_equal_spec in H; destruct H as [Hy Hd]; zbool; subst doy;
    rewrite <- ?Hy in L; unfold jan1; rewrite <- ?Hy.
  all: Z.div_mod_to_equations; lia.
Qed.

(** ** Months and days *)

Lemma month_cases m : 1 <= m <= 12 ->
  m = 1 \/ m = 2 \/ m = 3 \/ m = 4 \/ m = 5 \/ m = 6 \/
  m = 7 \/ m = 8 \/ m = 9 \/ m = 10 \/ m = 11 \/ m = 12.
Proof. lia. Qed.

Ltac each_month H :=
  apply month_cases in H;
  repeat (destruct H as [H | H]); subst.

(** The table of cumulated month lengths is the sum of the month lengths. *)
Lemma days_before_month_offset y m :
  1 <= m <= 13 ->
  days_before_month y m = nth (Z.to_nat (m - 1)) (month_offset (leap y)) 0.
Proof.
  intros H. assert (H' : 1 <= m <= 12 \/ m = 13) by lia.
  destruct H' as [H'| ->]; [each_month H'|];
    unfold days_before_month; eval_to_nat;
    cbn [days_before_month_nat Z.of_nat Pos.of_succ_nat Pos.succ days_in_month];
    destruct (leap y); reflexivity.
Qed.

Lemma month_and_day_spec y doy m d :
  0 <= doy < year_length y ->
  month_and_day (days_per_month_table (is_leapyear y)) 1 doy = (m, d) ->
  valid_date y m d /\ days_before_month y m + (d - 1) = doy.
Proof.
  rewrite leap_is_leapyear. unfold year_length, valid_date.
  intros Hdoy H.
  destruct (leap y) eqn:L; cbn [days_per_month_table month_and_day] in H;
    repeat match type of H with
    | (if ?c then _ else _) = _ => destruct c eqn:?
    end;
    apply pair_equal_spec in H; destruct H as [<- <-]; zbool;
    try lia;
    (rewrite days_before_month_offset by lia);
    rewrite L; eval_to_nat; norm_month;
    cbn [nth month_offset days_in_month]; rewrite ?L; lia.
Qed.

(** The date of an instant is a date of the calendar, that of its day. *)
Lemma dt_date_spec t y m d :
  dt_date t = (y, m, d) ->
  valid_date y m d /\ epoch_day y m d = t / ms_per_day.
Proof.
  unfold dt_date.
  destruct (days_to_yearsdays (t / ms_per_day)) as [y' doy] eqn:Hy.
  destruct (month_and_day _ 1 doy) as [m' d'] eqn:Hm.
  intros H. apply pair_equal_spec in H. destruct H as [H <-].
  apply pair_equal_spec in H. destruct H as [<- <-].
  apply days_to_yearsdays_spec in Hy. destruct Hy as [Hj Hr].
  apply month_and_day_spec in Hm; [|exact Hr].
  destruct Hm as [Hv Hd]. split; [exact Hv|].
  unfold epoch_day. lia.
Qed.

(** ** Weekday and ISO week *)

(** Sakamoto's formula counts the days from a Thursday, 1970-01-01. *)
Lemma dayofweek_spec y m d :
  valid_date y m d ->
  0 <= dayofweek y m d <= 6
  /\ (epoch_day y m d + 3 - dayofweek y m d) mod 7 = 0.
Proof.
  intros [Hm Hd]. unfold epoch_day.
  rewrite days_before_month_offset by lia. unfold jan1.
  pose proof (leap_count_succ y) as HL.
  destruct (leap y) eqn:L;
    each_month Hm; unfold dayofweek; eval_to_nat.
  all: cbn [nth month_offset sakamoto_arr days_in_month] in Hd |- *.
  all: rewrite ?L in Hd.
  all: match goal with
       | |- context [if ?c then _ else _] =>
           let b := eval vm_compute in c in change c with b; cbv iota
       end.
  all: forget_divisions y.
  all: Z.div_mod_to_equations; lia.
Qed.

(** The estimate-and-verify week number is the week of the year that holds
    the Thursday of the date's week. *)
Lemma get_week_of_year_spec y m d :
  valid_date y m d ->
  exists iso_year,
    jan1 iso_year <= epoch_day y m d - dayofweek y m d + 3
                  < jan1 (iso_year + 1)
    /\ get_week_of_year y m d =
       (epoch_day y m d - dayofweek y m d + 3 - jan1 iso_year) / 7 + 1.
Proof.
  intros Hv. pose proof (dayofweek_spec Hv) as [Hwd _]. destruct Hv as [Hm Hd].
  unfold get_week_of_year, get_day_of_year, epoch_day.
  rewrite !leap_is_leapyear. rewrite days_before_month_offset by lia.
  pose proof (jan1_succ (y - 1)) as J0. replace (y - 1 + 1) with y in J0 by lia.
  pose proof (jan1_succ y) as J1.
  pose proof (jan1_succ (y + 1)) as J2.
  pose proof (year_length_bounds (y + 1)) as B2.
  unfold year_length in J0, J1.
  generalize dependent (dayofweek y m d). intros wd Hwd.
  destruct (leap y) eqn:L; destruct (leap (y - 1)) eqn:L1;
    each_month Hm; eval_to_nat;
    cbn [nth month_offset days_in_month] in Hd |- *; rewrite ?L in Hd.
  all: cbv zeta; split_comparisons; cbn [orb andb]; zbool; try lia.
  all: try (exfalso; Z.div_mod_to_equations; lia).
  all: (first
    [ exists y; split; [lia | Z.div_mod_to_equations; lia]
    | exists (y - 1); replace (y - 1 + 1) with y by lia;
      split; [lia | Z.div_mod_to_equations; lia]
    | exists (y + 1); split; [lia | Z.div_mod_to_equations; lia] ]).
Qed.

Lemma dt_hour_spec t :
  0 <= dt_hour t < 24 /\
  ms_per_day * (t / ms_per_day) + ms_per_hour * dt_hour t <= t
  < ms_per_day * (t / ms_per_day) + ms_per_hour * (dt_hour t + 1).
Proof.
  unfold dt_hour, ms_per_day, ms_per_hour. Z.div_mod_to_equations. lia.
Qed.

(** The accessors give the breakdown of the instant that the calendar
    rules define. *)
Lemma dt_accessors_correct t :
  calendar_decomposition t (dt_hour t) (dt_day t) (dt_isocalendar_week t)
                         (dt_month t) (dt_year t) (dt_weekday t).
Proof.
  unfold dt_day, dt_month, dt_year, dt_weekday, dt_isocalendar_week.
  destruct (dt_date t) as [[y m] d] eqn:Hdate. cbn [fst snd].
  apply dt_date_spec in Hdate. destruct Hdate as [Hv Hday].
  destruct (dayofweek_spec Hv) as [Hr Hw].
  destruct (dt_hour_spec t) as [Hh Hms].
  destruct (get_week_of_year_spec Hv) as (iy & Hi & Hweek).
  rewrite Hday in Hw, Hi, Hweek.
  constructor; try assumption.
  exists iy. cbv zeta. split; assumption.
Qed.

(** ** The breakdown is unique *)

Lemma jan1_add y n : 0 <= n -> jan1 y + 365 * n <= jan1 (y + n).
Proof.
  revert n. apply natlike_ind.
  - replace (y + 0) with y by lia. lia.
  - intros n Hn IH. replace (y + Z.succ n) with (y + n + 1) by lia.
    rewrite jan1_succ. pose proof (year_length_bounds (y + n)). lia.
Qed.

Lemma jan1_next_le y y' : y < y' -> jan1 (y + 1) <= jan1 y'.
Proof.
  intros H. assert (Hn : 0 <= y' - y - 1) by lia.
  pose proof (jan1_add (y + 1) Hn) as Ha.
  replace (y + 1 + (y' - y - 1)) with y' in Ha by lia. lia.
Qed.

Lemma year_of_day_unique z y y' :
  jan1 y <= z < jan1 (y + 1) -> jan1 y' <= z < jan1 (y' + 1) -> y = y'.
Proof.
  intros H H'. destruct (Z.lt_trichotomy y y') as [Hlt|[Heq|Hgt]];
    [|exact Heq|].
  - pose proof (jan1_next_le Hlt). lia.
  - pose proof (jan1_next_le Hgt). lia.
Qed.

Lemma valid_date_in_year y m d :
  valid_date y m d ->
  jan1 y <= epoch_day y m d < jan1 (y + 1).
Proof.
  intros [Hm Hd]. unfold epoch_day. rewrite jan1_succ. unfold year_length.
  rewrite days_before_month_offset by lia.
  destruct (leap y) eqn:L; each_month Hm; eval_to_nat;
    cbn [nth month_offset days_in_month] in Hd |- *; rewrite ?L in Hd; lia.
Qed.

Lemma epoch_day_injective y m d y' m' d' :
  valid_date y m d -> valid_date y' m' d' ->
  epoch_day y m d = epoch_day y' m' d' ->
  y = y' /\ m = m' /\ d = d'.
Proof.
  intros Hv Hv' Heq.
  assert (Hy : y = y').
  { apply (year_of_day_unique (z := epoch_day y m d)).
    - apply valid_date_in_year, Hv.
    - rewrite Heq. apply valid_date_in_year, Hv'. }
  subst y'. split; [reflexivity|].
  destruct Hv as [Hm Hd], Hv' as [Hm' Hd']. unfold epoch_day in Heq.
  rewrite !days_before_month_offset in Heq by lia.
  revert Heq.
  destruct (leap y) eqn:L; each_month Hm; each_month Hm';
    revert Hd Hd'; eval_to_nat;
    cbn [nth month_offset days_in_month]; rewrite ?L; lia.
Qed.

(** An instant has one breakdown only, so the accessors return it. *)
Lemma calendar_decomposition_unique t hour day week month year_ weekday
    hour' day' week' month' year_' weekday' :
  calendar_decomposition t hour day week month year_ weekday ->
  calendar_decomposition t hour' day' week' month' year_' weekday' ->
  hour = hour' /\ day = day' /\ week = week' /\ month = month'
  /\ year_ = year_' /\ weekday = weekday'.
Proof.
  intros [Hv Hd Hhr Hh Hwr Hw (iy & Hi & Hk)] [Hv' Hd' Hhr' Hh' Hwr' Hw' (iy' & Hi' & Hk')].
  cbv zeta in Hi, Hk, Hi', Hk'.
  destruct (epoch_day_injective Hv Hv') as (-> & -> & ->); [congruence|].
  assert (hour = hour') by (unfold ms_per_day, ms_per_hour in *; lia).
  assert (weekday = weekday')
    by (revert Hw Hw'; generalize (t / ms_per_day); intros;
        Z.div_mod_to_equations; lia).
  subst. assert (iy = iy') by (eapply year_of_day_unique; eassumption).
  subst. repeat split; reflexivity.
Qed.

End Calendar.

(* ------------------------------------------------------------------ *)
(** * Traces of the loops *)

Lemma bind_eq {A B} (m : M A) (f : A -> M B) h :
  bind m f h =
  match m h with
  | (inl e, es) => (inl e, es)
  | (inr a, es) => let '(r, es') := f a (h ++ es) in (r, es ++ es')
  end.
Proof. reflexivity. Qed.

(** A loop over a list in two parts: the second part starts from what the
    first has left, so every element, in order, gets its own run of the
    body. *)
Lemma for_each_app {A} (body : A -> M unit) pre post h :
  for_each (pre ++ post) body h =
  match for_each pre body h with
  | (inl x, es) => (inl x, es)
  | (inr _, es) =>
      let '(r, es') := for_each post body (h ++ es) in (r, es ++ es')
  end.
Proof.
  revert h. induction pre as [|x pre IH]; intros h.
  - cbn. rewrite app_nil_r. destruct (for_each post body h); reflexivity.
  - cbn [app for_each]. rewrite !bind_eq.
    destruct (body x h) as [[e|[]] es]; [reflexivity|].
    rewrite IH.
    destruct (for_each pre body (h ++ es)) as [[e|[]] es']; [reflexivity|].
    rewrite <- app_assoc.
    destruct (for_each post body (h ++ es ++ es')) as [r es''].
    rewrite app_assoc. reflexivity.
Qed.

Lemma executed_app q a b :
  executed q (a ++ b) = executed q a ++ executed q b.
Proof. unfold executed. apply flat_map_app. Qed.

Lemma query_eqb_refl q : query_eqb q q = true.
Proof. destruct q; reflexivity. Qed.

Lemma executed_map_same q rows :
  executed q (map (Execute q) rows) = rows.
Proof.
  induction rows as [|row rows IH]; [reflexivity|].
  cbn. rewrite query_eqb_refl. cbn. f_equal. exact IH.
Qed.

Lemma executed_map_other q q' rows :
  query_eqb q q' = false -> executed q (map (Execute q') rows) = [].
Proof.
  intros Hq. induction rows as [|row rows IH]; [reflexivity|].
  cbn. rewrite Hq. exact IH.
Qed.

Lemma executed_read q filepath es :
  executed q (ReadJson filepath :: es) = executed q es.
Proof. reflexivity. Qed.

Lemma executed_songplay_events q es :
  Forall songplay_event es ->
  query_eqb q song_select = false ->
  query_eqb q songplay_table_insert = false ->
  executed q es = [].
Proof.
  intros Hes H1 H2. induction Hes as [|ev es [args [-> | ->]] _ IH];
    [reflexivity| |]; cbn; rewrite ?H1, ?H2; exact IH.
Qed.

Section Loops.

Variable W : world.
Variable cur : cursor.

(** A loop of inserts issues the rows in order and stops at the first one
    that the store refuses. *)
Lemma for_each_execute q rows h r es :
  for_each rows (fun row => cur_execute W cur q row) h = (r, es) ->
  exists k,
    es = map (Execute q) (firstn k rows)
    /\ (r = inr tt -> firstn k rows = rows).
Proof.
  revert h r es. induction rows as [|row rows IH]; intros h r es.
  - cbn. intros [= <- <-]. exists O. split; reflexivity.
  - cbn [for_each]. rewrite bind_eq. unfold cur_execute at 1.
    destruct (execute_error W h q row) as [detail|].
    + intros [= <- <-]. exists 1%nat. split; [reflexivity|]. discriminate.
    + destruct (for_each rows _ (h ++ [Execute q row])) as [r' es'] eqn:E.
      intros [= <- <-]. apply IH in E. destruct E as (k & -> & Hok).
      exists (S k). split; [reflexivity|].
      intros Hr. cbn. f_equal. exact (Hok Hr).
Qed.

(** One iteration of the songplay loop, case by case: the lookup can be
    refused; the timestamp can be out of bounds; the record can pass the
    guard, and the insert be accepted or refused; or the record is skipped. *)
Lemma songplay_step_unfold row h :
  songplay_step W cur row h =
  let lookup := Execute song_select (lookup_args row) in
  match execute_error W h song_select (lookup_args row) with
  | Some detail => (inl (psycopg2_Error detail), [lookup])
  | None =>
      if in_bounds (ts row) then
        let results := fetchone_row W (h ++ [lookup]) in
        if songplay_wanted row results then
          let data := songplay_row row results in
          (match execute_error W (h ++ [lookup]) songplay_table_insert data with
           | Some detail => inl (psycopg2_Error detail)
           | None => inr tt
           end,
           [lookup; Execute songplay_table_insert data])
        else (inr tt, [lookup])
      else (inl out_of_bounds, [lookup])
  end.
Proof.
  unfold songplay_step, lookup_args. cbv zeta.
  rewrite bind_eq. unfold cur_execute at 1.
  destruct (execute_error W h song_select _); [reflexivity|].
  rewrite bind_eq. unfold cur_fetchone. rewrite app_nil_r.
  assert (Huid : truthy (if truthy (userId row) then userId row else PNone)
                 = truthy (userId row))
    by (destruct (truthy (userId row)) eqn:E; [exact E|reflexivity]).
  destruct (fetchone_row W _) as [[s a]|]; rewrite bind_eq;
    unfold pd_to_datetime;
    destruct (in_bounds (ts row)); try reflexivity;
    cbn [ret raise app songplay_wanted songplay_row]; rewrite Huid.
  - destruct (truthy (userId row)) eqn:Hu; cbn [andb]; [|reflexivity].
    destruct (truthy s && truthy a); [|reflexivity].
    unfold cur_execute, songplay_data. rewrite app_nil_r.
    destruct (execute_error W _ songplay_table_insert _); reflexivity.
  - cbn [truthy]. rewrite andb_false_r. reflexivity.
Qed.

Lemma songplay_step_events row h :
  Forall songplay_event (snd (songplay_step W cur row h)).
Proof.
  rewrite songplay_step_unfold. cbv zeta.
  destruct (execute_error W h song_select _).
  - cbn. repeat constructor. eexists; left; reflexivity.
  - destruct (in_bounds (ts row));
      [destruct (songplay_wanted row _)|];
      cbn [snd]; repeat constructor;
      solve [eexists; left; reflexivity | eexists; right; reflexivity].
Qed.

Lemma songplay_loop_events rows h :
  Forall songplay_event (snd (for_each rows (songplay_step W cur) h)).
Proof.
  revert h. induction rows as [|row rows IH]; intros h; [constructor|].
  cbn [for_each]. rewrite bind_eq.
  pose proof (songplay_step_events row h) as Hstep.
  destruct (songplay_step W cur row h) as [[e|[]] es]; [exact Hstep|].
  specialize (IH (h ++ es)).
  destruct (for_each rows _ (h ++ es)) as [r es']. cbn [snd] in *.
  apply Forall_app. split; assumption.
Qed.

(** The trace of [process_log_file] on a log frame: the read, then Time
    inserts, User inserts and the songplay loop, each an initial part of
    what a run without error issues. *)
Lemma process_log_file_trace filepath rows h r es :
  read_json W filepath = inr (LogFrame rows) ->
  process_log_file W cur filepath h = (r, es) ->
  exists kt ku es',
    es = ReadJson filepath
         :: map (Execute time_table_insert) (firstn kt (time_rows rows))
         ++ map (Execute user_table_insert) (firstn ku (user_rows rows))
         ++ es'
    /\ Forall songplay_event es'
    /\ (r = inr tt ->
        firstn kt (time_rows rows) = time_rows rows
        /\ firstn ku (user_rows rows) = user_rows rows)
    /\ ((es' = [] /\ r <> inr tt)
        \/ exists h', for_each rows (songplay_step W cur) h' = (r, es')).
Proof.
  intros Hread. unfold process_log_file.
  rewrite bind_eq. unfold pd_read_json. rewrite Hread.
  rewrite bind_eq. cbn [log_columns ret app].
  rewrite bind_eq. unfold pd_to_datetime_column.
  destruct (forallb in_bounds (map ts (df_time_table rows))).
  2: { intros [= <- <-]. exists O, O, []. cbn.
       split; [reflexivity|]. split; [constructor|].
       split; [discriminate|]. left. split; [reflexivity|discriminate]. }
  cbn [ret]. fold (time_rows rows).
  rewrite bind_eq.
  match goal with
  | |- context [for_each (time_rows rows) ?body ?h'] =>
      destruct (for_each (time_rows rows) body h') as [[e|[]] et] eqn:Et
  end;
    apply for_each_execute in Et; destruct Et as (kt & -> & Hkt).
  - intros [= <- <-]. exists kt, O, []. cbn. rewrite app_nil_r.
    split; [reflexivity|]. split; [constructor|].
    split; [discriminate|]. left. split; [reflexivity|discriminate].
  - rewrite bind_eq.
    match goal with
    | |- context [for_each (user_rows rows) ?body ?h'] =>
        destruct (for_each (user_rows rows) body h') as [[e|[]] eu] eqn:Eu
    end;
      apply for_each_execute in Eu; destruct Eu as (ku & -> & Hku).
    + intros [= <- <-]. exists kt, ku, []. cbn. rewrite app_nil_r.
      split; [reflexivity|]. split; [constructor|].
      split; [discriminate|]. left. split; [reflexivity|discriminate].
    + match goal with
      | |- context [for_each rows (songplay_step W cur) ?h'] =>
          pose proof (songplay_loop_events rows h') as Hs;
          destruct (for_each rows (songplay_step W cur) h') as [r' es'] eqn:Es
      end.
      cbn [fst snd] in *. intros [= <- <-].
      exists kt, ku, es'. cbn.
      split; [reflexivity|]. split; [exact Hs|]. split; [auto|].
      right. eexists. exact Es.
Qed.

(** The statements of one kind in the trace of [process_log_file]. *)
Lemma executed_log_trace q filepath time_part user_part es' :
  Forall songplay_event es' ->
  executed q (ReadJson filepath
              :: map (Execute time_table_insert) time_part
              ++ map (Execute user_table_insert) user_part
              ++ es')
  = match q with
    | time_table_insert => time_part
    | user_table_insert => user_part
    | song_table_insert | artist_table_insert => []
    | _ => executed q es'
    end.
Proof.
  intros Hs. rewrite executed_read, !executed_app.
  pose proof (fun q' => @executed_songplay_events q' es' Hs) as Hz.
  destruct q;
    rewrite ?executed_map_same, ?executed_map_other by reflexivity;
    match goal with
    | |- context [executed ?q0 es'] =>
        first [rewrite (Hz q0 eq_refl eq_refl)|idtac]
    end;
    rewrite ?app_nil_r; reflexivity.
Qed.

(** A loop of inserts that the store accepts sends every row. *)
Lemma for_each_execute_accepted q rows h :
  (forall h' args, execute_error W h' q args = None) ->
  for_each rows (fun row => cur_execute W cur q row) h
  = (inr tt, map (Execute q) rows).
Proof.
  intros Hok. revert h. induction rows as [|row rows IH]; intros h;
    [reflexivity|].
  cbn [for_each]. rewrite bind_eq. unfold cur_execute at 1.
  rewrite Hok, IH. reflexivity.
Qed.

(** A NextSong timestamp out of bounds ends the transformer before any
    statement. *)
Lemma process_log_file_out_of_bounds filepath rows h :
  read_json W filepath = inr (LogFrame rows) ->
  forallb in_bounds (map ts (df_time_table rows)) = false ->
  process_log_file W cur filepath h = (inl out_of_bounds, [ReadJson filepath]).
Proof.
  intros Hread Hb. unfold process_log_file.
  rewrite bind_eq. unfold pd_read_json. rewrite Hread.
  rewrite bind_eq. cbn [log_columns ret app].
  rewrite bind_eq. unfold pd_to_datetime_column. rewrite Hb. reflexivity.
Qed.

(** With timestamps in bounds and a store that takes the Time inserts, all
    the Time rows are sent, whatever happens afterwards. *)
Lemma process_log_file_time_rows_accepted filepath rows h :
  read_json W filepath = inr (LogFrame rows) ->
  forallb in_bounds (map ts (df_time_table rows)) = true ->
  (forall h' args, execute_error W h' time_table_insert args = None) ->
  executed time_table_insert (snd (process_log_file W cur filepath h))
  = time_rows rows.
Proof.
  intros Hread Hb Hok. unfold process_log_file.
  rewrite bind_eq. unfold pd_read_json. rewrite Hread.
  rewrite bind_eq. cbn [log_columns ret app].
  rewrite bind_eq. unfold pd_to_datetime_column. rewrite Hb.
  cbn [ret]. fold (time_rows rows).
  rewrite bind_eq, (for_each_execute_accepted _ _ _ Hok).
  rewrite bind_eq.
  match goal with
  | |- context [for_each (user_rows rows) ?body ?h'] =>
      destruct (for_each (user_rows rows) body h') as [[e|[]] eu] eqn:Eu
  end;
    apply for_each_execute in Eu; destruct Eu as (ku & -> & _).
  - cbn [snd app]. rewrite executed_read, !executed_app, executed_map_same.
    rewrite executed_map_other by reflexivity.
    rewrite !app_nil_r. reflexivity.
  - match goal with
    | |- context [for_each rows (songplay_step W cur) ?h'] =>
        pose proof (songplay_loop_events rows h') as Hs;
        destruct (for_each rows (songplay_step W cur) h') as [r' es']
    end.
    cbn [fst snd app] in *.
    rewrite executed_read, !executed_app, executed_map_same.
    rewrite executed_map_other by reflexivity.
    rewrite executed_songplay_events by (try assumption; reflexivity).
    rewrite !app_nil_r. reflexivity.
Qed.

(** With every timestamp in bounds and a store that accepts every
    statement the log transformer ends normally. *)
Lemma songplay_loop_accepted rows h :
  forallb in_bounds (map ts rows) = true ->
  (forall h' q args, execute_error W h' q args = None) ->
  fst (for_each rows (songplay_step W cur) h) = inr tt.
Proof.
  intros Hb Hok. revert h. induction rows as [|row rows IH]; intros h;
    [reflexivity|].
  cbn [map forallb] in Hb. apply andb_true_iff in Hb. destruct Hb as [Hrow Hb].
  cbn [for_each]. rewrite bind_eq, songplay_step_unfold. cbv zeta.
  rewrite Hok, Hrow.
  destruct (songplay_wanted row _); rewrite ?Hok;
    match goal with
    | |- context [for_each rows ?body ?h'] =>
        specialize (IH Hb h'); destruct (for_each rows body h') as [r es]
    end; exact IH.
Qed.

Lemma process_log_file_accepted filepath rows h :
  read_json W filepath = inr (LogFrame rows) ->
  forallb in_bounds (map ts rows) = true ->
  (forall h' q args, execute_error W h' q args = None) ->
  fst (process_log_file W cur filepath h) = inr tt.
Proof.
  intros Hread Hb Hok. unfold process_log_file.
  rewrite bind_eq. unfold pd_read_json. rewrite Hread.
  rewrite bind_eq. cbn [log_columns ret app].
  rewrite bind_eq. unfold pd_to_datetime_column, df_time_table.
  assert (Hbt : forallb in_bounds
                  (map ts (filter (fun r => eq_str (page r) "NextSong") rows))
                = true).
  { rewrite forallb_forall in *. intros t Ht. apply Hb.
    apply in_map_iff in Ht. destruct Ht as (r & <- & Hr).
    apply filter_In in Hr. apply in_map. tauto. }
  rewrite Hbt. cbn [ret].
  rewrite bind_eq, for_each_execute_accepted by (intros; apply Hok).
  rewrite bind_eq, for_each_execute_accepted by (intros; apply Hok).
  match goal with
  | |- context [for_each rows (songplay_step W cur) ?h'] =>
      pose proof (songplay_loop_accepted rows h' Hb Hok) as Hs;
      destruct (for_each rows (songplay_step W cur) h') as [r es]
  end.
  exact Hs.
Qed.

(** The rows of one statement that a run of [process_log_file] sends. *)
Lemma process_log_file_time_rows filepath rows h :
  read_json W filepath = inr (LogFrame rows) ->
  exists k,
    executed time_table_insert (snd (process_log_file W cur filepath h))
      = firstn k (time_rows rows)
    /\ (fst (process_log_file W cur filepath h) = inr tt ->
        firstn k (time_rows rows) = time_rows rows).
Proof.
  intros Hread.
  destruct (process_log_file W cur filepath h) as [r es] eqn:E.
  destruct (process_log_file_trace _ _ Hread E)
    as (kt & ku & es' & -> & Hs & Hok & _).
  exists kt. cbn [fst snd]. split; [|intros Hr; apply (Hok Hr)].
  exact (executed_log_trace time_table_insert _ _ _ Hs).
Qed.

Lemma process_log_file_user_rows filepath rows h :
  read_json W filepath = inr (LogFrame rows) ->
  exists k,
    executed user_table_insert (snd (process_log_file W cur filepath h))
      = firstn k (user_rows rows)
    /\ (fst (process_log_file W cur filepath h) = inr tt ->
        firstn k (user_rows rows) = user_rows rows).
Proof.
  intros Hread.
  destruct (process_log_file W cur filepath h) as [r es] eqn:E.
  destruct (process_log_file_trace _ _ Hread E)
    as (kt & ku & es' & -> & Hs & Hok & _).
  exists ku. cbn [fst snd]. split; [|intros Hr; apply (Hok Hr)].
  exact (executed_log_trace user_table_insert _ _ _ Hs).
Qed.

End Loops.

(* ------------------------------------------------------------------ *)
(** * Time rows *)

Lemma frame_rows_seven {A} (f1 f2 f3 f4 f5 f6 f7 : A -> pyval) (l : list A) :
  frame_rows (List.length l)
             [map f1 l; map f2 l; map f3 l; map f4 l; map f5 l; map f6 l; map f7 l]
  = map (fun x => [f1 x; f2 x; f3 x; f4 x; f5 x; f6 x; f7 x]) l.
Proof.
  induction l as [|x l IH]; [reflexivity|].
  cbn. f_equal. exact IH.
Qed.

Lemma time_rows_of_next_song rows :
  Forall2 time_row_of
          (filter (fun r => eq_str (page r) "NextSong") rows)
          (time_rows rows).
Proof.
  unfold time_rows, time_df, df_time_table. cbv zeta.
  rewrite frame_rows_seven.
  induction (filter (fun r => eq_str (page r) "NextSong") rows) as [|r l IH];
    cbn; constructor; [|exact IH].
  do 6 eexists. split; [reflexivity|]. apply dt_accessors_correct.
Qed.

Lemma Forall2_firstn {A B} (R : A -> B -> Prop) k l l' :
  Forall2 R l l' -> Forall2 R (firstn k l) (firstn k l').
Proof.
  intros H. revert k. induction H; intros [|k]; cbn; constructor; auto.
Qed.

(** C4, as the code has it: the Time rows sent for a log file are, for an
    initial part of the records whose page is "NextSong" and in file
    order, the timestamp followed by the hour, day, ISO week, month, year
    and weekday that the calendar gives for that epoch-millisecond instant.
    They are all sent, as many as there are such records, when these
    timestamps are within the bounds of a Timestamp and the store accepts
    the Time inserts, and whenever the run ends normally; a timestamp out
    of bounds ends the run before any statement. *)
Theorem C4_time_rows (W : world) (cur : cursor) (filepath : path)
    (rows : list log_record) (h : list event) :
  read_json W filepath = inr (LogFrame rows) ->
  let next_song := filter (fun r => eq_str (page r) "NextSong") rows in
  let written :=
    executed time_table_insert (snd (process_log_file W cur filepath h)) in
  (exists k, Forall2 time_row_of (firstn k next_song) written)
  /\ (forallb in_bounds (map ts next_song) = true ->
      (forall h' args, execute_error W h' time_table_insert args = None) ->
      List.length written = List.length next_song
      /\ Forall2 time_row_of next_song written)
  /\ (fst (process_log_file W cur filepath h) = inr tt ->
      List.length written = List.length next_song
      /\ Forall2 time_row_of next_song written)
  /\ (forallb in_bounds (map ts next_song) = false ->
      process_log_file W cur filepath h
      = (inl out_of_bounds, [ReadJson filepath])).
Proof.
  intros Hread next_song written.
  destruct (process_log_file_time_rows W cur filepath h Hread) as (k & Hk & Hok).
  fold written in Hk.
  pose proof (time_rows_of_next_song rows) as H2. fold next_song in H2.
  split; [|split; [|split]].
  - exists k. rewrite Hk. apply Forall2_firstn, time_rows_of_next_song.
  - intros Hb Hacc. unfold written.
    rewrite (process_log_file_time_rows_accepted W cur filepath h Hread Hb Hacc).
    split; [symmetry; exact (Forall2_length H2)|exact H2].
  - intros Hr. rewrite Hk, (Hok Hr).
    split; [symmetry; exact (Forall2_length H2)|exact H2].
  - intros Hb. exact (process_log_file_out_of_bounds W cur filepath h Hread Hb).
Qed.

(* ------------------------------------------------------------------ *)
(** * User rows *)

Lemma hkey_eqb_eq a b : hkey_eqb a b = true <-> a = b.
Proof.
  destruct a, b; cbn; try (split; [discriminate|congruence]).
  - split; reflexivity.
  - rewrite andb_true_iff, Z.eqb_eq, Pos.eqb_eq. split; [intros [-> ->]|intros [= -> ->]]; auto.
  - rewrite String.eqb_eq. split; congruence.
  - rewrite Z.eqb_eq. split; congruence.
Qed.

Lemma hkey_eqb_neq a b : hkey_eqb a b = false <-> a <> b.
Proof.
  rewrite <- hkey_eqb_eq. destruct (hkey_eqb a b); split; congruence.
Qed.

Lemma existsb_hkey k seen :
  existsb (hkey_eqb k) seen = true <-> In k seen.
Proof.
  rewrite existsb_exists. split.
  - intros (x & Hin & Heq). apply hkey_eqb_eq in Heq. subst. exact Hin.
  - intros Hin. exists k. split; [exact Hin|]. apply hkey_eqb_eq. reflexivity.
Qed.

Lemma negb_existsb_forallb {A} (f : A -> bool) l :
  negb (existsb f l) = forallb (fun x => negb (f x)) l.
Proof.
  induction l as [|x l IH]; [reflexivity|].
  cbn. rewrite negb_orb, IH. reflexivity.
Qed.

Lemma with_prefixes_app {A} (b l1 l2 : list A) :
  with_prefixes b (l1 ++ l2) = with_prefixes b l1 ++ with_prefixes (b ++ l1) l2.
Proof.
  revert b. induction l1 as [|x l1 IH]; intros b; cbn.
  - rewrite app_nil_r. reflexivity.
  - rewrite IH, <- app_assoc. reflexivity.
Qed.

Lemma with_prefixes_In {A} (b l : list A) b' y :
  In (b', y) (with_prefixes b l) -> In y l /\ incl b b'.
Proof.
  revert b. induction l as [|x l IH]; intros b; cbn; [tauto|].
  intros [[= <- <-]|Hin].
  - split; [left; reflexivity|apply incl_refl].
  - apply IH in Hin. destruct Hin as [Hy Hb]. split; [right; exact Hy|].
    intros z Hz. apply Hb, in_or_app. left. exact Hz.
Qed.

(** [drop_duplicates] then [dropna] are the rows of the specification. *)
Lemma user_rows_from before seen rows :
  (forall k, In k seen <-> In k (map (fun r => key_of (userId r)) before)) ->
  dropna (drop_duplicates_from seen column_userId (map user_columns rows))
  = map (fun br => user_columns (snd br))
        (filter (fun br =>
                   forallb (fun r' => negb (same_user r' (snd br))) (fst br)
                   && forallb (fun v => negb (isna v)) (user_columns (snd br)))
                (with_prefixes before rows)).
Proof.
  revert before seen. induction rows as [|r rows IH]; intros before seen Hseen;
    [reflexivity|].
  cbn [map drop_duplicates_from with_prefixes filter fst snd].
  change (column_userId (user_columns r)) with (userId r).
  assert (Hfirst : existsb (hkey_eqb (key_of (userId r))) seen
                   = negb (forallb (fun r' => negb (same_user r' r)) before)).
  { rewrite <- negb_existsb_forallb, negb_involutive.
    apply eq_true_iff_eq. rewrite existsb_hkey, Hseen, in_map_iff, existsb_exists.
    unfold same_user.
    split; intros (x & H1 & H2); exists x.
    - split; [exact H2|]. apply hkey_eqb_eq. exact H1.
    - apply hkey_eqb_eq in H2. split; [exact H2|exact H1]. }
  rewrite Hfirst.
  destruct (forallb (fun r' => negb (same_user r' r)) before) eqn:Hnew;
    cbn [negb andb].
  - unfold dropna at 1. cbn [filter].
    rewrite negb_existsb_forallb.
    assert (Hrest : dropna (drop_duplicates_from (key_of (userId r) :: seen)
                              column_userId (map user_columns rows))
                    = map (fun br => user_columns (snd br))
                        (filter (fun br =>
                           forallb (fun r' => negb (same_user r' (snd br))) (fst br)
                           && forallb (fun v => negb (isna v)) (user_columns (snd br)))
                          (with_prefixes (before ++ [r]) rows))).
    { apply IH. intros k. rewrite map_app, in_app_iff. cbn. rewrite Hseen. tauto. }
    fold (dropna (drop_duplicates_from (key_of (userId r) :: seen)
                    column_userId (map user_columns rows))).
    rewrite Hrest.
    destruct (forallb (fun v => negb (isna v)) (user_columns r));
      reflexivity.
  - apply IH. intros k. rewrite map_app, in_app_iff. cbn. rewrite <- Hseen.
    split; [tauto|]. intros [Hk|[<-|[]]]; [exact Hk|].
    apply existsb_hkey. exact Hfirst.
Qed.

Lemma user_rows_spec rows : user_rows rows = spec_user_rows rows.
Proof.
  unfold user_rows, spec_user_rows, drop_duplicates.
  apply user_rows_from. intros k. cbn. tauto.
Qed.

Lemma drop_duplicates_from_NoDup {A} (subset : A -> pyval) seen rows :
  NoDup (map (fun r => key_of (subset r)) (drop_duplicates_from seen subset rows))
  /\ forall r, In r (drop_duplicates_from seen subset rows) ->
               ~ In (key_of (subset r)) seen.
Proof.
  revert seen. induction rows as [|r rows IH]; intros seen.
  - split; [constructor|intros r []].
  - cbn [drop_duplicates_from].
    destruct (existsb (hkey_eqb (key_of (subset r))) seen) eqn:Hseen.
    + apply IH.
    + destruct (IH (key_of (subset r) :: seen)) as [Hnd Hout].
      split.
      * cbn. constructor; [|exact Hnd].
        rewrite in_map_iff. intros (x & Hx & Hin).
        apply (Hout x Hin). left. symmetry. exact Hx.
      * intros x [<-|Hin].
        -- rewrite <- existsb_hkey, Hseen. discriminate.
        -- intros Hs. apply (Hout x Hin). right. exact Hs.
Qed.

Lemma NoDup_map_filter {A B} (g : A -> B) (p : A -> bool) l :
  NoDup (map g l) -> NoDup (map g (filter p l)).
Proof.
  induction l as [|x l IH]; cbn; [auto|].
  intros H. inversion H as [|? ? Hx Hl]; subst.
  destruct (p x); [|auto]. cbn. constructor; [|auto].
  rewrite in_map_iff in *. intros (y & Hy & Hin).
  apply Hx. exists y. split; [exact Hy|].
  apply filter_In in Hin. tauto.
Qed.

Lemma firstn_incl {A} k (l : list A) : incl (firstn k l) l.
Proof.
  revert k. induction l as [|x l IH]; intros [|k]; cbn; intros y Hy;
    try contradiction.
  destruct Hy as [<-|Hy]; [left; reflexivity|right; exact (IH k y Hy)].
Qed.


Lemma user_rows_NoDup rows :
  NoDup (map (fun row => key_of (column_userId row)) (user_rows rows)).
Proof.
  unfold user_rows, dropna, drop_duplicates.
  apply NoDup_map_filter.
  apply (drop_duplicates_from_NoDup column_userId [] (map user_columns rows)).
Qed.



(** C10: when the first record of a log file that carries some user_id has
    a missing value in a User field, no User row with that user_id is sent
    for the file, whatever the later records of that user hold. *)
Theorem C10_first_record_null (W : world) (cur : cursor) (filepath : path)
    (before after : list log_record) (r : log_record) (h : list event) :
  read_json W filepath = inr (LogFrame (before ++ r :: after)) ->
  (forall r', In r' before -> key_of (userId r') <> key_of (userId r)) ->
  existsb isna (user_columns r) = true ->
  forall row,
    In row (executed user_table_insert
              (snd (process_log_file W cur filepath h))) ->
    key_of (column_userId row) <> key_of (userId r).
Proof.
  intros Hread Hfirst Hnull row Hin.
  destruct (process_log_file_user_rows W cur filepath h Hread) as (k & Hk & _).
  rewrite Hk in Hin. apply firstn_incl in Hin.
  rewrite user_rows_spec in Hin. unfold spec_user_rows in Hin.
  apply in_map_iff in Hin. destruct Hin as ([b' y] & <- & Hin).
  apply filter_In in Hin. cbn [fst snd] in Hin. destruct Hin as [Hin Hkeep].
  apply andb_true_iff in Hkeep. destruct Hkeep as [Hnew Hfull].
  change (column_userId (user_columns y)) with (userId y).
  rewrite with_prefixes_app in Hin. cbn [with_prefixes] in Hin.
  apply in_app_or in Hin. destruct Hin as [Hin|[Heq|Hin]].
  - apply with_prefixes_In in Hin. apply Hfirst. tauto.
  - injection Heq as <- <-.
    rewrite <- negb_existsb_forallb, Hnull in Hfull. discriminate.
  - apply with_prefixes_In in Hin. destruct Hin as [_ Hincl].
    rewrite forallb_forall in Hnew.
    assert (Hr : In r b') by (apply Hincl, in_or_app; right; left; reflexivity).
    specialize (Hnew r Hr). apply negb_true_iff in Hnew.
    unfold same_user in Hnew. apply hkey_eqb_neq in Hnew.
    intros E. apply Hnew. symmetry. exact E.
Qed.

(* ------------------------------------------------------------------ *)
(** * The song transformer *)

(** An integer of at most 53 bits is its own float. *)
Lemma float_of_int_exact n :
  Z.abs n <= 2 ^ 53 -> float_of_int n = inject_Z n.
Proof.
  intros Hn. unfold float_of_int. cbv zeta.
  destruct (Z.log2 (Z.abs n) - 52 <=? 0) eqn:Hk; [reflexivity|].
  apply Z.leb_gt in Hk.
  assert (Hpos : 0 < Z.abs n).
  { destruct (Z.eq_dec (Z.abs n) 0) as [E|E];
      [rewrite E in Hk; cbn in Hk; lia|lia]. }
  assert (Hlog : Z.log2 (Z.abs n) <= 53).
  { change 53 with (Z.log2 (2 ^ 53)). apply Z.log2_le_mono. exact Hn. }
  assert (Hk1 : Z.log2 (Z.abs n) = 53) by lia.
  assert (Ha : Z.abs n = 2 ^ 53).
  { pose proof (Z.log2_spec (Z.abs n) Hpos) as [Hlo _].
    rewrite Hk1 in Hlo. lia. }
  rewrite Hk1, Ha. change (53 - 52) with 1.
  change (2 ^ 53 / 2 ^ 1) with (2 ^ 52).
  change (2 ^ 53 mod 2 ^ 1) with 0.
  change (2 ^ (1 - 1) <? 0) with false.
  change (0 =? 2 ^ (1 - 1)) with false. cbn [orb andb].
  f_equal.
  change (2 ^ 52 * 2 ^ 1) with (2 ^ 53). rewrite <- Ha.
  rewrite Z.mul_comm. apply Z.abs_sgn.
Qed.








(** The outcome of the song transformer on a frame with a record, by the
    answers of the store. *)
Lemma process_song_file_eq (W : world) (cur : cursor) (filepath : path)
    (r : song_record) (rest : list song_record) (h : list event) :
  read_json W filepath = inr (SongFrame (r :: rest)) ->
  let song := Execute song_table_insert (song_row (r :: rest)) in
  let artist := Execute artist_table_insert (artist_row (r :: rest)) in
  process_song_file W cur filepath h =
  match execute_error W (h ++ [ReadJson filepath])
                      song_table_insert (song_row (r :: rest)) with
  | Some detail => (inl (psycopg2_Error detail), [ReadJson filepath; song])
  | None =>
      (match execute_error W (h ++ [ReadJson filepath; song])
                           artist_table_insert (artist_row (r :: rest)) with
       | Some detail => inl (psycopg2_Error detail)
       | None => inr tt
       end,
       [ReadJson filepath; song; artist])
  end.
Proof.
  intros Hread song artist. unfold process_song_file.
  rewrite bind_eq. unfold pd_read_json. rewrite Hread.
  rewrite bind_eq. cbn [song_columns ret].
  rewrite bind_eq.
  change (values_0 (values (map song_fields (r :: rest))))
    with (@ret (list pyval) (song_row (r :: rest))).
  cbn [ret].
  rewrite bind_eq. unfold cur_execute at 1. rewrite !app_nil_r.
  destruct (execute_error W (h ++ [ReadJson filepath]) song_table_insert _);
    [reflexivity|].
  rewrite bind_eq. cbn [ret]. rewrite bind_eq.
  change (values_0 (values (map artist_fields (r :: rest))))
    with (@ret (list pyval) (artist_row (r :: rest))).
  cbn [ret]. unfold cur_execute. rewrite !app_nil_r, <- app_assoc.
  cbn [app].
  destruct (execute_error W _ artist_table_insert _); reflexivity.
Qed.


(** C9: a song file without any record makes the transformer fail on its
    first row access, before any statement is sent; the failure is no store
    error, so the loop over files lets it through: nothing is rolled back
    and the files after it are not read. *)
Theorem C9_empty_song_file (W : world) (cur : cursor) (conn : connection)
    (num_files i : nat) (filepath : path) (rest : list path)
    (df : DataFrame) (h : list event) :
  read_json W filepath = inr df ->
  frame_length df = O ->
  process_song_file W cur filepath h = (inl LookupError, [ReadJson filepath])
  /\ process_files W cur conn (song_transformer W) num_files i
                   (filepath :: rest) h
     = (inl LookupError, [ReadJson filepath]).
Proof.
  intros Hread Hempty.
  assert (Hsong : process_song_file W cur filepath h
                  = (inl LookupError, [ReadJson filepath])).
  { unfold process_song_file. rewrite bind_eq. unfold pd_read_json.
    rewrite Hread. rewrite bind_eq.
    destruct df as [|[|r rows]|rows]; try discriminate Hempty; reflexivity. }
  split; [exact Hsong|].
  cbn [process_files]. rewrite bind_eq. unfold process_one, try_except_psycopg2.
  rewrite bind_eq. cbn [func_call song_transformer]. rewrite Hsong. reflexivity.
Qed.

(* ------------------------------------------------------------------ *)
(** * The songplay loop *)




Section Songplays.

Variable W : world.
Variable cur : cursor.

(** The store answers a lookup by its parameters. *)
Variable answer : list pyval -> option (pyval * pyval).
Hypothesis lookup_answer :
  forall h args,
    fetchone_row W (h ++ [Execute song_select args]) = answer args.



End Songplays.


(* ------------------------------------------------------------------ *)
(** * The loop over files *)

Lemma bind_assoc {A B C} (m : M A) (f : A -> M B) (g : B -> M C) h :
  bind (bind m f) g h = bind m (fun x => bind (f x) g) h.
Proof.
  rewrite !bind_eq.
  destruct (m h) as [[e|a] es]; [reflexivity|].
  rewrite bind_eq.
  destruct (f a (h ++ es)) as [[e|b] es']; [reflexivity|].
  rewrite app_assoc.
  destruct (g b ((h ++ es) ++ es')) as [r es''].
  rewrite app_assoc. reflexivity.
Qed.

Section Batch.

Variable W : world.
Variable cur : cursor.
Variable conn : connection.
Variable func : transformer.
Variable num_files : nat.

(** One file: the transformer and the commit decide what follows. *)
Lemma process_one_eq i datafile h :
  process_one W cur conn func num_files i datafile h =
  match (func_call func cur datafile ;; conn_commit W conn) h with
  | (inr _, es) => (inr tt, es ++ [Print (FilesProcessed i num_files)])
  | (inl (psycopg2_Error e), es) =>
      let report := [Print (DatabaseError datafile (func_name func));
                     Print (ErrorDetail e)] in
      (match rollback_error W ((h ++ es) ++ report) with
       | Some detail => inl (psycopg2_Error detail)
       | None => inr tt
       end,
       es ++ report ++ [Rollback])
  | (inl x, es) => (inl x, es)
  end.
Proof.
  unfold process_one, try_except_psycopg2.
  rewrite <- bind_assoc. rewrite (bind_eq (_ ;; _) _ h).
  destruct ((func_call func cur datafile ;; conn_commit W conn) h)
    as [[x|[]] es].
  - destruct x; try reflexivity.
    rewrite !bind_eq. unfold py_print, emit. cbn [app].
    rewrite bind_eq. unfold conn_rollback.
    rewrite <- !app_assoc. cbn [app].
    destruct (rollback_error W _); reflexivity.
  - unfold py_print, emit. reflexivity.
Qed.

(** The loop over a list of files in two parts: the second part starts
    where the first ended, and its counter has advanced by the number of
    files of the first part, whatever became of them. *)
Lemma process_files_app i pre post h :
  process_files W cur conn func num_files i (pre ++ post) h =
  match process_files W cur conn func num_files i pre h with
  | (inl x, es) => (inl x, es)
  | (inr _, es) =>
      let '(r, es') :=
        process_files W cur conn func num_files (i + List.length pre)%nat
                      post (h ++ es) in
      (r, es ++ es')
  end.
Proof.
  revert i h. induction pre as [|f pre IH]; intros i h.
  - cbn. rewrite Nat.add_0_r, app_nil_r.
    destruct (process_files W cur conn func num_files i post h); reflexivity.
  - cbn [app process_files List.length]. rewrite !bind_eq.
    destruct (process_one W cur conn func num_files i f h) as [[x|[]] es];
      [reflexivity|].
    rewrite IH.
    destruct (process_files W cur conn func num_files (S i) pre (h ++ es))
      as [[x|[]] es']; [reflexivity|].
    replace (S i + List.length pre)%nat with (i + S (List.length pre))%nat by lia.
    rewrite <- app_assoc.
    destruct (process_files W cur conn func num_files _ post _) as [r es''].
    rewrite app_assoc. reflexivity.
Qed.

End Batch.

(** C2, as the code has it: when processing a file of the list raises a
    store error (from the transformer or from the commit), the error is
    reported, the transaction is rolled back and, unless the rollback fails
    too, the loop goes on with the files after it exactly as it runs on
    them from that state; an error of any other kind is not caught: it ends
    the loop at that file, with no rollback and the remaining files left
    unprocessed. *)
Theorem C2_store_errors_contained (W : world) (cur : cursor)
    (conn : connection) (func : transformer) (num_files i : nat)
    (pre rest : list path) (datafile : path) (h es1 es : list event)
    (x : exn) :
  process_files W cur conn func num_files i pre h = (inr tt, es1) ->
  (func_call func cur datafile ;; conn_commit W conn) (h ++ es1) = (inl x, es) ->
  match x with
  | psycopg2_Error e =>
      let report := [Print (DatabaseError datafile (func_name func));
                     Print (ErrorDetail e)] in
      rollback_error W (((h ++ es1) ++ es) ++ report) = None ->
      process_files W cur conn func num_files i (pre ++ datafile :: rest) h =
      let '(r, es') :=
        process_files W cur conn func num_files (S (i + List.length pre)) rest
                      (h ++ es1 ++ es ++ report ++ [Rollback]) in
      (r, es1 ++ es ++ report ++ [Rollback] ++ es')
  | _ =>
      process_files W cur conn func num_files i (pre ++ datafile :: rest) h
      = (inl x, es1 ++ es)
  end.
Proof.
  intros Hpre Hfile.
  assert (Hgen : process_files W cur conn func num_files i
                               (pre ++ datafile :: rest) h
                 = let '(r, es') :=
                     process_files W cur conn func num_files
                                   (i + List.length pre)%nat (datafile :: rest)
                                   (h ++ es1) in
                   (r, es1 ++ es'))
    by (rewrite process_files_app, Hpre; reflexivity).
  rewrite Hgen. cbn [process_files]. rewrite bind_eq, process_one_eq, Hfile.
  destruct x as [e| | |detail]; try reflexivity.
  cbv zeta. intros Hrollback. rewrite Hrollback.
  rewrite <- !app_assoc. cbn [app].
  destruct (process_files W cur conn func num_files _ rest _) as [r es'].
  rewrite <- !app_assoc. reflexivity.
Qed.

(** C6, as the code has it: the progress line of a file, its position in
    the list out of the total, is printed when the transformer and the
    commit have both succeeded; after a store error the failure report and
    the rollback come instead and no progress line; the position counts all
    files before it, failed or not. *)
Theorem C6_progress_after_success (W : world) (cur : cursor)
    (conn : connection) (func : transformer) (num_files i : nat)
    (pre rest : list path) (datafile : path) (h es1 : list event) :
  process_files W cur conn func num_files i pre h = (inr tt, es1) ->
  let position := (i + List.length pre)%nat in
  process_files W cur conn func num_files i (pre ++ datafile :: rest) h
  = (let '(r, es') :=
       (process_one W cur conn func num_files position datafile ;;
        process_files W cur conn func num_files (S position) rest) (h ++ es1) in
     (r, es1 ++ es'))
  /\ match (func_call func cur datafile ;; conn_commit W conn) (h ++ es1) with
     | (inr _, es) =>
         process_one W cur conn func num_files position datafile (h ++ es1)
         = (inr tt, es ++ [Print (FilesProcessed position num_files)])
     | (inl (psycopg2_Error e), es) =>
         snd (process_one W cur conn func num_files position datafile (h ++ es1))
         = es ++ [Print (DatabaseError datafile (func_name func));
                  Print (ErrorDetail e); Rollback]
     | (inl x, es) =>
         process_one W cur conn func num_files position datafile (h ++ es1)
         = (inl x, es)
     end.
Proof.
  intros Hpre position. split.
  - rewrite process_files_app, Hpre. reflexivity.
  - rewrite process_one_eq.
    destruct ((func_call func cur datafile ;; conn_commit W conn) (h ++ es1))
      as [[x|[]] es]; [|reflexivity].
    destruct x; reflexivity.
Qed.

(* ------------------------------------------------------------------ *)
(** * main *)

(** C8, what the code does: when the connection cannot be opened, the error
    is printed and [main] goes on to the first call of [process_data],
    whose argument [cur] was never bound: reading it raises
    [UnboundLocalError], so neither directory is processed. *)
Theorem C8_connection_failure_unbound (W : world) (h : list event)
    (e : string) :
  connect_error W = Some e ->
  main W h = (inl UnboundLocalError, [Print (ConnectionFailed e)]).
Proof.
  intros Hconn. unfold main. rewrite bind_eq. unfold connect_block.
  rewrite Hconn. reflexivity.
Qed.

(** X20: when the connection opens and the cursor cannot be made, the
    error is printed and [main] goes on to the first call of
    [process_data], whose argument [cur] was never bound: reading it raises
    [UnboundLocalError], neither directory is processed and the connection
    that was opened is not closed. *)
Lemma main_cursor_failure_unbound (W : world) (h : list event) (e : string) :
  connect_error W = None ->
  cursor_error W = Some e ->
  main W h = (inl UnboundLocalError, [Connect; Print (ConnectionFailed e)]).
Proof.
  intros Hconn Hcur. unfold main. rewrite bind_eq. unfold connect_block.
  rewrite Hconn, Hcur. reflexivity.
Qed.

(* ------------------------------------------------------------------ *)
(** * The file walker *)

(** C7, where the code falls short: [x.json] lies two levels below the song
    root, in a directory named [a[1]]; the walker visits that directory but
    hands its path to [glob] as part of the pattern, where [[1]] is a
    character set, so the file is not in the list. *)
Theorem C7_bracket_directory_missed :
  In ["data"; "song_data"; "a[1]"; "x.json"]
     (flat_map (json_files_below []) Sample.bracket_tree)
  /\ In ["data"; "song_data"; "a[1]"]
        (os_walk Sample.bracket_tree ["data"; "song_data"])
  /\ all_json_files Sample.home Sample.bracket_tree ["data"; "song_data"] = [].
Proof.
  split; [|split].
  - vm_compute. left. reflexivity.
  - vm_compute. right. left. reflexivity.
  - vm_compute. reflexivity.
Qed.

(** ** On trees with plain directory names the walker is complete *)

Lemma node_nested_ind (P : node -> Prop) :
  (forall name, P (File name)) ->
  (forall name sub, Forall P sub -> P (Dir name sub)) ->
  forall e, P e.
Proof.
  intros HF HD. fix IH 1. intros [name|name sub]; [apply HF|].
  apply HD. induction sub as [|e sub IHsub]; constructor; [apply IH|exact IHsub].
Qed.

Lemma existsb_rev {A} (f : A -> bool) l : existsb f (rev l) = existsb f l.
Proof.
  induction l as [|x l IH]; [reflexivity|].
  cbn. rewrite existsb_app, IH. cbn. rewrite orb_false_r. apply orb_comm.
Qed.

Lemma find_entry_unique sub e :
  unique_names (map node_name sub) = true ->
  In e sub ->
  find_entry sub (node_name e) = Some e.
Proof.
  unfold find_entry. induction sub as [|x sub IH]; [intros _ []|].
  cbn [map unique_names find]. rewrite andb_true_iff, negb_true_iff.
  intros [Hx Hsub] [->|Hin].
  - rewrite String.eqb_refl. reflexivity.
  - destruct (String.eqb (node_name x) (node_name e)) eqn:E; [|auto].
    exfalso. apply String.eqb_eq in E.
    assert (Hex : existsb (String.eqb (node_name x)) (map node_name sub) = true).
    { apply existsb_exists. exists (node_name e). split.
      - apply in_map, Hin.
      - apply String.eqb_eq, E. }
    congruence.
Qed.

Lemma listdir_snoc entries p sub name sub' :
  listdir entries p = Some sub ->
  unique_names (map node_name sub) = true ->
  In (Dir name sub') sub ->
  listdir entries (p ++ [name]) = Some sub'.
Proof.
  revert entries. induction p as [|c p IH]; intros entries.
  - cbn [listdir app]. intros [= ->] Hu Hin.
    pose proof (find_entry_unique sub (Dir name sub') Hu Hin) as Hfind.
    cbn [node_name] in Hfind. rewrite Hfind. reflexivity.
  - cbn [listdir app]. destruct (find_entry entries c) as [[?|? s]|];
      try discriminate.
    apply IH.
Qed.




(** Without such names the files of the sample tree are all found, at
    every depth and in the order of the walk. *)
Lemma walker_sample_tree :
  all_json_files Sample.home Sample.tree ["data"; "song_data"]
  = [Sample.file_empty; Sample.file_s1; Sample.file_s2]
  /\ map (fun f => Sample.home ++ f)
         (flat_map (json_files_below []) Sample.tree)
     = [Sample.file_empty; Sample.file_s1; Sample.file_s2;
        Sample.file_events; Sample.file_twice].
Proof. split; vm_compute; reflexivity. Qed.

(* ------------------------------------------------------------------ *)
(** * The claims on the sample data *)



Lemma C2_store_errors_contained_witness :
  process_files Sample.refusing_S1 Cur Conn
                (song_transformer Sample.refusing_S1) 2 1
                [Sample.file_s1; Sample.file_s2] []
  = (inr tt,
     [ReadJson Sample.file_s1;
      Execute song_table_insert
              [PStr "S1"; PStr "T"; PStr "A1"; PInt 2000; PFloat (361 # 2)];
      Print (DatabaseError Sample.file_s1 "process_song_file");
      Print (ErrorDetail "duplicate key value");
      Rollback;
      ReadJson Sample.file_s2;
      Execute song_table_insert
              [PStr "S2"; PStr "U"; PStr "A1"; PInt 2001; PFloat (200 # 1)];
      Execute artist_table_insert
              [PStr "A1"; PStr "N"; PStr "L"; PNaN; PNaN];
      Commit;
      Print (FilesProcessed 2 2)]).
Proof.
  exact (@C2_store_errors_contained Sample.refusing_S1 Cur Conn
           (song_transformer Sample.refusing_S1) 2 1
           [] [Sample.file_s2] Sample.file_s1 [] []
           [ReadJson Sample.file_s1;
            Execute song_table_insert
                    [PStr "S1"; PStr "T"; PStr "A1"; PInt 2000;
                     PFloat (361 # 2)]]
           (psycopg2_Error "duplicate key value")
           eq_refl eq_refl eq_refl).
Defined.

(** The first song file has no record: its error is no store error, nothing
    is rolled back and the two files after it are never read. *)
Lemma C2_counterexample :
  all_json_files Sample.home Sample.tree ["data"; "song_data"]
  = [Sample.file_empty; Sample.file_s1; Sample.file_s2]
  /\ process_data Sample.healthy Cur Conn ["data"; "song_data"]
                  (song_transformer Sample.healthy) []
     = (inl LookupError,
        [Print (FilesFound 3 ["data"; "song_data"]);
         ReadJson Sample.file_empty]).
Proof. split; vm_compute; reflexivity. Qed.



(** A log file of six records, four of them NextSong, with other pages in
    between. *)
Lemma C4_time_rows_witness :
  List.length
    (executed time_table_insert
       (snd (process_log_file Faulty.mixed Cur Sample.file_events [])))
  = 4%nat
  /\ Forall2 time_row_of
       [Sample.log_10; Faulty.log_12_anonymous; Faulty.log_10_paid;
        Faulty.log_guest]
       (executed time_table_insert
          (snd (process_log_file Faulty.mixed Cur Sample.file_events []))).
Proof.
  exact (proj1 (proj2 (@C4_time_rows Faulty.mixed Cur Sample.file_events
                         Faulty.mixed_log [] eq_refl))
               eq_refl (fun _ _ => eq_refl)).
Defined.

(** Four NextSong records and two Time rows sent, the second one refused;
    one NextSong record stamped in the year 2286 and no Time row. *)
Lemma C4_counterexample :
  (List.length (df_time_table Faulty.mixed_log) = 4%nat
   /\ process_log_file Faulty.refusing_time Cur Sample.file_events []
      = (inl (psycopg2_Error "duplicate key value"),
         [ReadJson Sample.file_events;
          Execute time_table_insert
                  [PTimestamp 1541121934796; PInt 1; PInt 2; PInt 44;
                   PInt 11; PInt 2018; PInt 4];
          Execute time_table_insert
                  [PTimestamp 1541122500000; PInt 1; PInt 2; PInt 44;
                   PInt 11; PInt 2018; PInt 4]]))
  /\ (List.length (df_time_table [Faulty.log_2286]) = 1%nat
      /\ process_log_file Faulty.far_future Cur Sample.file_events []
         = (inl (ValueError "Out of bounds nanosecond timestamp"),
            [ReadJson Sample.file_events])).
Proof. repeat split. Qed.


Lemma C6_progress_after_success_witness :
  process_one Sample.refusing_S1 Cur Conn
              (song_transformer Sample.refusing_S1) 2 2 Sample.file_s2
              [ReadJson Sample.file_s1;
               Execute song_table_insert
                       [PStr "S1"; PStr "T"; PStr "A1"; PInt 2000;
                        PFloat (361 # 2)];
               Print (DatabaseError Sample.file_s1 "process_song_file");
               Print (ErrorDetail "duplicate key value");
               Rollback]
  = (inr tt,
     [ReadJson Sample.file_s2;
      Execute song_table_insert
              [PStr "S2"; PStr "U"; PStr "A1"; PInt 2001; PFloat (200 # 1)];
      Execute artist_table_insert
              [PStr "A1"; PStr "N"; PStr "L"; PNaN; PNaN];
      Commit;
      Print (FilesProcessed 2 2)]).
Proof.
  exact (proj2 (@C6_progress_after_success Sample.refusing_S1 Cur Conn
                  (song_transformer Sample.refusing_S1) 2 1
                  [Sample.file_s1] [] Sample.file_s2 [] _ eq_refl)).
Defined.

(** The only file of the list fails with a store error: the run prints the
    failure report and rolls back, and prints no progress line. *)
Lemma C6_counterexample :
  process_files Sample.refusing_S1 Cur Conn
                (song_transformer Sample.refusing_S1) 1 1 [Sample.file_s1] []
  = (inr tt,
     [ReadJson Sample.file_s1;
      Execute song_table_insert
              [PStr "S1"; PStr "T"; PStr "A1"; PInt 2000; PFloat (361 # 2)];
      Print (DatabaseError Sample.file_s1 "process_song_file");
      Print (ErrorDetail "duplicate key value");
      Rollback])
  /\ ~ In (Print (FilesProcessed 1 1))
          (snd (process_files Sample.refusing_S1 Cur Conn
                  (song_transformer Sample.refusing_S1) 1 1
                  [Sample.file_s1] [])).
Proof.
  split; [vm_compute; reflexivity|].
  vm_compute. intros H.
  repeat (destruct H as [H|H]; [discriminate H|]). exact H.
Qed.

Lemma C8_connection_failure_unbound_witness :
  main Sample.unreachable []
  = (inl UnboundLocalError,
     [Print (ConnectionFailed "could not connect to server")]).
Proof.
  exact (@C8_connection_failure_unbound Sample.unreachable []
           "could not connect to server" eq_refl).
Defined.

Lemma C9_empty_song_file_witness :
  process_files Sample.healthy Cur Conn (song_transformer Sample.healthy) 3 1
                [Sample.file_empty; Sample.file_s1; Sample.file_s2] []
  = (inl LookupError, [ReadJson Sample.file_empty]).
Proof.
  exact (proj2 (@C9_empty_song_file Sample.healthy Cur Conn 3 1
                  Sample.file_empty [Sample.file_s1; Sample.file_s2]
                  EmptyFrame [] eq_refl eq_refl)).
Defined.

Lemma C10_first_record_null_witness :
  ~ In [PStr "10"; PStr "A"; PStr "B"; PStr "F"; PStr "free"]
       (executed user_table_insert
          (snd (process_log_file Sample.healthy Cur Sample.file_twice []))).
Proof.
  intros Hin.
  apply (@C10_first_record_null Sample.healthy Cur Sample.file_twice
           [] [Sample.log_10] Sample.log_10_anonymous [] eq_refl
           (fun r' (H : In r' []) => match H with end) eq_refl _ Hin).
  reflexivity.
Defined.

(* ------------------------------------------------------------------ *)
(** * More on the transformers *)

Section Transformers.

Variable W : world.
Variable cur : cursor.

Lemma for_each_execute_error q rows h x es :
  for_each rows (fun row => cur_execute W cur q row) h = (inl x, es) ->
  exists detail, x = psycopg2_Error detail.
Proof.
  revert h es. induction rows as [|row rows IH]; intros h es.
  - cbn. discriminate.
  - cbn [for_each]. rewrite bind_eq. unfold cur_execute at 1.
    destruct (execute_error W h q row) as [detail|].
    + intros [= <- <-]. exists detail. reflexivity.
    + destruct (for_each rows _ (h ++ [Execute q row])) as [[x'|[]] es'] eqn:E;
        intros [= <- <-].
      exact (IH _ _ E).
Qed.

(** One iteration of the songplay loop: the lookup, then at most one
    insert, for a record and identifiers that all pass the guard; it can
    only fail with a store error or on a timestamp out of bounds. *)
Lemma songplay_step_shape row h :
  exists r ins,
    songplay_step W cur row h = (r, Execute song_select (lookup_args row) :: ins)
    /\ (ins = [] \/
        exists data, ins = [Execute songplay_table_insert data]
                     /\ songplay_row_of row data)
    /\ (forall x, r = inl x ->
        (exists detail, x = psycopg2_Error detail)
        \/ (x = out_of_bounds /\ in_bounds (ts row) = false)).
Proof.
  rewrite songplay_step_unfold. cbv zeta.
  destruct (execute_error W h song_select (lookup_args row)) as [detail|].
  { eexists _, []. split; [reflexivity|]. split; [left; reflexivity|].
    intros x [= <-]. left. exists detail. reflexivity. }
  destruct (in_bounds (ts row)) eqn:Hb.
  2: { eexists _, []. split; [reflexivity|]. split; [left; reflexivity|].
       intros x [= <-]. right. split; reflexivity. }
  destruct (fetchone_row W _) as [[s a]|]; cbn [songplay_wanted songplay_row].
  - destruct (truthy (userId row) && truthy s && truthy a) eqn:Hguard.
    + apply andb_true_iff in Hguard. destruct Hguard as [Hguard Ha].
      apply andb_true_iff in Hguard. destruct Hguard as [Hu Hs].
      eexists _, [_]. split; [reflexivity|]. split.
      * right. eexists. split; [reflexivity|]. exists s, a. auto.
      * intros x. destruct (execute_error W _ songplay_table_insert _);
          intros [= <-]. left. eexists. reflexivity.
    + exists (inr tt), []. split; [reflexivity|].
      split; [left; reflexivity|discriminate].
  - exists (inr tt), []. split; [reflexivity|].
    split; [left; reflexivity|discriminate].
Qed.

(** The songplay loop: the lookups are those of the records, in order, up
    to the record where the loop stopped; every insert is the Songplay row
    of a record of the list; a failure is a store error, or the failed
    conversion of a timestamp of the list. *)
Lemma songplay_loop_shape rows h r es :
  for_each rows (songplay_step W cur) h = (r, es) ->
  (exists k, executed song_select es = map lookup_args (firstn k rows))
  /\ (r = inr tt -> executed song_select es = map lookup_args rows)
  /\ Forall (fun data => exists rec, In rec rows /\ songplay_row_of rec data)
            (executed songplay_table_insert es)
  /\ (List.length (executed songplay_table_insert es) <= List.length rows)%nat
  /\ (forall x, r = inl x ->
      (exists detail, x = psycopg2_Error detail)
      \/ (x = out_of_bounds /\ forallb in_bounds (map ts rows) = false)).
Proof.
  revert h r es. induction rows as [|row rows IH]; intros h r es.
  - cbn. intros [= <- <-]. repeat split; try constructor.
    + exists O. reflexivity.
    + discriminate.
  - cbn [for_each]. rewrite bind_eq.
    destruct (songplay_step_shape row h) as (r1 & ins & -> & Hins & Herr).
    assert (Hsel : executed song_select (Execute song_select (lookup_args row) :: ins)
                   = [lookup_args row]).
    { destruct Hins as [->|(data & -> & _)]; reflexivity. }
    assert (Hsp : Forall (fun data => exists rec, In rec (row :: rows)
                                                  /\ songplay_row_of rec data)
                    (executed songplay_table_insert
                       (Execute song_select (lookup_args row) :: ins))
                  /\ (List.length (executed songplay_table_insert
                        (Execute song_select (lookup_args row) :: ins)) <= 1)%nat).
    { destruct Hins as [->|(data & -> & Hrow)]; cbn; split; try lia;
        repeat constructor.
      exists row. split; [left; reflexivity|exact Hrow]. }
    destruct Hsp as [Hsp Hlen].
    destruct r1 as [x|[]].
    + intros [= <- <-]. rewrite Hsel.
      split; [exists 1%nat; reflexivity|].
      split; [discriminate|]. split; [exact Hsp|].
      split; [cbn [List.length]; lia|].
      intros x' [= <-]. destruct (Herr x eq_refl) as [Hx|[-> Hb]];
        [left; exact Hx|right].
      split; [reflexivity|]. cbn [map forallb]. rewrite Hb. reflexivity.
    + destruct (for_each rows _ _) as [r' es'] eqn:E. intros [= <- <-].
      apply IH in E. destruct E as ((k & Hk) & Hok & Hall & Hle & Herr').
      change (Execute song_select (lookup_args row) :: ins ++ es')
        with ((Execute song_select (lookup_args row) :: ins) ++ es').
      rewrite !executed_app, Hsel.
      split; [exists (S k); cbn; rewrite Hk; reflexivity|].
      split; [intros Hr; cbn; rewrite (Hok Hr); reflexivity|].
      split.
      { apply Forall_app. split; [exact Hsp|].
        eapply Forall_impl; [|exact Hall].
        intros data (rec & Hin & Hrow). exists rec.
        split; [right; exact Hin|exact Hrow]. }
      split; [rewrite length_app; cbn [List.length]; lia|].
      intros x Hx. destruct (Herr' x Hx) as [Hd|[-> Hb]];
        [left; exact Hd|right].
      split; [reflexivity|]. cbn [map forallb]. rewrite Hb.
      apply andb_false_r.
Qed.

(** The ways a run of [process_log_file] on a log frame can go: the
    conversion of the NextSong timestamps fails, or it stops in the Time
    inserts, or in the User inserts after all Time rows, or it reaches the
    songplay loop after all Time and User rows. *)
Lemma process_log_file_phases filepath rows h r es :
  read_json W filepath = inr (LogFrame rows) ->
  process_log_file W cur filepath h = (r, es) ->
  (r = inl out_of_bounds
   /\ es = [ReadJson filepath]
   /\ forallb in_bounds (map ts (df_time_table rows)) = false)
  \/ (exists k detail,
      r = inl (psycopg2_Error detail)
      /\ es = ReadJson filepath
              :: map (Execute time_table_insert) (firstn k (time_rows rows)))
  \/ (exists k detail,
      r = inl (psycopg2_Error detail)
      /\ es = ReadJson filepath
              :: map (Execute time_table_insert) (time_rows rows)
              ++ map (Execute user_table_insert) (firstn k (user_rows rows)))
  \/ (exists h' es',
      for_each rows (songplay_step W cur) h' = (r, es')
      /\ es = ReadJson filepath
              :: map (Execute time_table_insert) (time_rows rows)
              ++ map (Execute user_table_insert) (user_rows rows)
              ++ es').
Proof.
  intros Hread. unfold process_log_file.
  rewrite bind_eq. unfold pd_read_json. rewrite Hread.
  rewrite bind_eq. cbn [log_columns ret app].
  rewrite bind_eq. unfold pd_to_datetime_column.
  destruct (forallb in_bounds (map ts (df_time_table rows))) eqn:Hb.
  2: { intros [= <- <-]. left. auto. }
  cbn [ret]. fold (time_rows rows).
  rewrite bind_eq.
  match goal with
  | |- context [for_each (time_rows rows) ?body ?h'] =>
      destruct (for_each (time_rows rows) body h') as [[x|[]] et] eqn:Et
  end.
  - destruct (for_each_execute_error _ _ _ Et) as (detail & ->).
    apply for_each_execute in Et. destruct Et as (kt & -> & _).
    intros [= <- <-]. right. left. exists kt, detail. auto.
  - apply for_each_execute in Et. destruct Et as (kt & -> & Hkt).
    rewrite (Hkt eq_refl). rewrite bind_eq.
    match goal with
    | |- context [for_each (user_rows rows) ?body ?h'] =>
        destruct (for_each (user_rows rows) body h') as [[x|[]] eu] eqn:Eu
    end.
    + destruct (for_each_execute_error _ _ _ Eu) as (detail & ->).
      apply for_each_execute in Eu. destruct Eu as (ku & -> & _).
      intros [= <- <-]. right. right. left. exists ku, detail.
      rewrite ?app_nil_r. auto.
    + apply for_each_execute in Eu. destruct Eu as (ku & -> & Hku).
      rewrite (Hku eq_refl).
      match goal with
      | |- context [for_each rows (songplay_step W cur) ?h'] =>
          destruct (for_each rows (songplay_step W cur) h') as [r' es'] eqn:Es
      end.
      intros [= <- <-]. right. right. right. eexists _, es'.
      split; [exact Es|]. rewrite ?app_nil_r. reflexivity.
Qed.

Lemma song_file_data_events filepath h :
  Forall data_event (snd (process_song_file W cur filepath h)).
Proof.
  destruct (read_json W filepath) as [e|df] eqn:Hread.
  - unfold process_song_file. rewrite bind_eq. unfold pd_read_json.
    rewrite Hread. repeat (constructor; try exact I).
  - destruct df as [|[|r rows]|rows];
      try solve [unfold process_song_file; rewrite bind_eq;
                 unfold pd_read_json; rewrite Hread; rewrite bind_eq;
                 repeat (constructor; try exact I)].
    rewrite (process_song_file_eq W cur filepath h Hread). cbv zeta.
    destruct (execute_error W _ song_table_insert _);
      repeat (constructor; try exact I).
Qed.

Lemma songplay_event_data ev : songplay_event ev -> data_event ev.
Proof. intros (args & [-> | ->]); exact I. Qed.

Lemma Forall_data_map q rows : Forall data_event (map (Execute q) rows).
Proof. induction rows; constructor; [exact I|assumption]. Qed.

Lemma log_file_data_events filepath h :
  Forall data_event (snd (process_log_file W cur filepath h)).
Proof.
  destruct (read_json W filepath) as [e|df] eqn:Hread.
  - unfold process_log_file. rewrite bind_eq. unfold pd_read_json.
    rewrite Hread. repeat (constructor; try exact I).
  - destruct df as [| |rows];
      try solve [unfold process_log_file; rewrite bind_eq;
                 unfold pd_read_json; rewrite Hread; rewrite bind_eq;
                 repeat (constructor; try exact I)].
    destruct (process_log_file W cur filepath h) as [r es] eqn:E.
    destruct (process_log_file_trace W cur filepath h Hread E)
      as (kt & ku & es' & -> & Hs & _).
    cbn [snd]. constructor; [exact I|].
    repeat (apply Forall_app; split); try apply Forall_data_map.
    eapply Forall_impl; [|exact Hs]. exact songplay_event_data.
Qed.

Lemma song_file_error_kind filepath r rest h x :
  read_json W filepath = inr (SongFrame (r :: rest)) ->
  fst (process_song_file W cur filepath h) = inl x ->
  exists detail, x = psycopg2_Error detail.
Proof.
  intros Hread. rewrite (process_song_file_eq W cur filepath h Hread).
  cbv zeta.
  destruct (execute_error W _ song_table_insert _) as [detail|].
  - intros [= <-]. exists detail. reflexivity.
  - cbn [fst].
    destruct (execute_error W _ artist_table_insert _) as [detail|];
      intros [= <-]. exists detail. reflexivity.
Qed.

Lemma log_file_error_kind filepath rows h x :
  read_json W filepath = inr (LogFrame rows) ->
  forallb in_bounds (map ts rows) = true ->
  fst (process_log_file W cur filepath h) = inl x ->
  exists detail, x = psycopg2_Error detail.
Proof.
  intros Hread Hb.
  assert (Hbt : forallb in_bounds (map ts (df_time_table rows)) = true).
  { rewrite forallb_forall in *. intros t Ht. apply Hb.
    apply in_map_iff in Ht. destruct Ht as (r & <- & Hr).
    apply filter_In in Hr. apply in_map. tauto. }
  destruct (process_log_file W cur filepath h) as [r es] eqn:E. cbn [fst].
  intros ->.
  destruct (process_log_file_phases _ _ Hread E)
    as [(_ & _ & Hf)|[(k & d & [= ->] & _)
                     |[(k & d & [= ->] & _)|(h' & es' & Hloop & _)]]].
  - congruence.
  - exists d. reflexivity.
  - exists d. reflexivity.
  - apply songplay_loop_shape in Hloop.
    destruct Hloop as (_ & _ & _ & _ & Herr).
    destruct (Herr x eq_refl) as [Hd|[_ Hf]]; [exact Hd|congruence].
Qed.

End Transformers.

(** X1: on a song file with a record, the artist insert is sent only once
    the store has accepted the song insert; a refusal of either insert is
    the error of the transformer, and it returns normally when both are
    accepted. *)
Theorem song_file_outcome (W : world) (cur : cursor) (filepath : path)
    (r : song_record) (rest : list song_record) (h : list event) :
  read_json W filepath = inr (SongFrame (r :: rest)) ->
  let song := Execute song_table_insert (song_row (r :: rest)) in
  let artist := Execute artist_table_insert (artist_row (r :: rest)) in
  process_song_file W cur filepath h =
  match execute_error W (h ++ [ReadJson filepath])
                      song_table_insert (song_row (r :: rest)) with
  | Some detail => (inl (psycopg2_Error detail), [ReadJson filepath; song])
  | None =>
      (match execute_error W (h ++ [ReadJson filepath; song])
                           artist_table_insert (artist_row (r :: rest)) with
       | Some detail => inl (psycopg2_Error detail)
       | None => inr tt
       end,
       [ReadJson filepath; song; artist])
  end.
Proof.
  intros Hread song artist. subst song artist.
  destruct (execute_error W (h ++ [ReadJson filepath]) song_table_insert
                          (song_row (r :: rest))) as [detail|] eqn:Hsong.
  - pose proof (process_song_file_eq W cur filepath h Hread) as H.
    cbv zeta in H. rewrite Hsong in H. exact H.
  - pose proof (process_song_file_eq W cur filepath h Hread) as H.
    cbv zeta in H. rewrite Hsong in H. exact H.
Qed.

(** X2: a file that cannot be read as line-delimited JSON makes either
    transformer fail with the reader's error before any statement is sent,
    and that error ends the loop over files: no report, no rollback, the
    files after it untouched. *)
Theorem unreadable_file_ends_batch (W : world) (cur : cursor)
    (conn : connection) (num_files i : nat) (filepath : path)
    (rest : list path) (h : list event) (e : exn) :
  read_json W filepath = inl e ->
  (forall detail, e <> psycopg2_Error detail) ->
  process_song_file W cur filepath h = (inl e, [ReadJson filepath])
  /\ process_log_file W cur filepath h = (inl e, [ReadJson filepath])
  /\ process_files W cur conn (song_transformer W) num_files i
                   (filepath :: rest) h = (inl e, [ReadJson filepath])
  /\ process_files W cur conn (log_transformer W) num_files i
                   (filepath :: rest) h = (inl e, [ReadJson filepath]).
Proof.
  intros Hread Hkind.
  assert (Hsong : process_song_file W cur filepath h
                  = (inl e, [ReadJson filepath])).
  { unfold process_song_file. rewrite bind_eq. unfold pd_read_json.
    rewrite Hread. reflexivity. }
  assert (Hlog : process_log_file W cur filepath h
                 = (inl e, [ReadJson filepath])).
  { unfold process_log_file. rewrite bind_eq. unfold pd_read_json.
    rewrite Hread. reflexivity. }
  repeat split; try assumption.
  - cbn [process_files]. rewrite bind_eq, process_one_eq, bind_eq.
    cbn [func_call song_transformer]. rewrite Hsong.
    destruct e; try reflexivity. exfalso. eapply Hkind. reflexivity.
  - cbn [process_files]. rewrite bind_eq, process_one_eq, bind_eq.
    cbn [func_call log_transformer]. rewrite Hlog.
    destruct e; try reflexivity. exfalso. eapply Hkind. reflexivity.
Qed.

(** X3: a file of the other kind, a log file under the song root or a song
    file (or a file without records) under the log root, lacks the columns
    the transformer selects: the transformer fails with a lookup error
    before any statement, and the loop over files ends there. *)
Theorem wrong_kind_of_file_ends_batch (W : world) (cur : cursor)
    (conn : connection) (num_files i : nat) (filepath : path)
    (rest : list path) (h : list event) (df : DataFrame) :
  read_json W filepath = inr df ->
  match df with
  | LogFrame _ =>
      process_files W cur conn (song_transformer W) num_files i
                    (filepath :: rest) h
      = (inl LookupError, [ReadJson filepath])
  | _ =>
      process_files W cur conn (log_transformer W) num_files i
                    (filepath :: rest) h
      = (inl LookupError, [ReadJson filepath])
  end.
Proof.
  intros Hread.
  destruct df as [|rows|rows]; cbn [process_files];
    rewrite bind_eq, process_one_eq, bind_eq;
    cbn [func_call song_transformer log_transformer];
    unfold process_song_file, process_log_file;
    rewrite bind_eq; unfold pd_read_json; rewrite Hread;
    rewrite bind_eq; reflexivity.
Qed.

(** X4: the statements of a log file come in three phases, Time inserts,
    then User inserts, then the lookups and Songplay inserts; a phase
    starts only when the one before it has sent all its rows. *)
Theorem log_file_phases_in_order (W : world) (cur : cursor)
    (filepath : path) (rows : list log_record) (h : list event) :
  read_json W filepath = inr (LogFrame rows) ->
  exists time_part user_part songplay_part,
    snd (process_log_file W cur filepath h)
    = ReadJson filepath
      :: map (Execute time_table_insert) time_part
      ++ map (Execute user_table_insert) user_part
      ++ songplay_part
    /\ Forall songplay_event songplay_part
    /\ (user_part <> [] \/ songplay_part <> [] -> time_part = time_rows rows)
    /\ (songplay_part <> [] -> user_part = user_rows rows).
Proof.
  intros Hread.
  destruct (process_log_file W cur filepath h) as [r es] eqn:E.
  destruct (@process_log_file_phases _ _ _ _ _ _ _ Hread E)
    as [(_ & -> & _)|[(k & d & _ & ->)
                     |[(k & d & _ & ->)|(h' & es' & Hloop & ->)]]];
    cbn [snd].
  - exists [], [], []. repeat split; try constructor.
    + intros [H|H]; contradiction.
    + intros H; contradiction.
  - exists (firstn k (time_rows rows)), [], []. cbn [map app].
    rewrite app_nil_r. repeat split; try constructor.
    + intros [H|H]; contradiction.
    + intros H; contradiction.
  - exists (time_rows rows), (firstn k (user_rows rows)), [].
    rewrite app_nil_r. repeat split; try constructor.
    intros H; contradiction.
  - exists (time_rows rows), (user_rows rows), es'.
    repeat split.
    pose proof (songplay_loop_events W cur rows h') as Hs.
    rewrite Hloop in Hs. exact Hs.
Qed.

(** X5: a run of a log file that ends normally has sent one lookup for
    every record of the file, whatever its page, in file order, each with
    the record's song title and length; a run cut short has sent the
    lookups of an initial part of the records. *)
Theorem lookup_for_every_record (W : world) (cur : cursor)
    (filepath : path) (rows : list log_record) (h : list event) :
  read_json W filepath = inr (LogFrame rows) ->
  let lookups :=
    executed song_select (snd (process_log_file W cur filepath h)) in
  (exists k, lookups = map lookup_args (firstn k rows))
  /\ (fst (process_log_file W cur filepath h) = inr tt ->
      lookups = map lookup_args rows).
Proof.
  intros Hread lookups. subst lookups.
  destruct (process_log_file W cur filepath h) as [r es] eqn:E.
  destruct (@process_log_file_phases _ _ _ _ _ _ _ Hread E)
    as [(-> & -> & _)|[(k & d & -> & ->)
                      |[(k & d & -> & ->)|(h' & es' & Hloop & ->)]]];
    cbn [fst snd]; rewrite executed_read, ?executed_app,
                     ?executed_map_other by reflexivity; cbn [app].
  - split; [exists O; reflexivity|discriminate].
  - split; [exists O; reflexivity|discriminate].
  - split; [exists O; reflexivity|discriminate].
  - apply songplay_loop_shape in Hloop.
    destruct Hloop as (Hk & Hok & _). split; assumption.
Qed.

(** X6: every Songplay row sent for a log file comes from a record of that
    file: it carries the record's session, timestamp, user_id, level,
    location and user agent, and its user_id, song_id and artist_id are all
    truthy; there are at most as many Songplay rows as records. *)
Theorem songplay_rows_from_records (W : world) (cur : cursor)
    (filepath : path) (rows : list log_record) (h : list event) :
  read_json W filepath = inr (LogFrame rows) ->
  let sent :=
    executed songplay_table_insert (snd (process_log_file W cur filepath h)) in
  Forall (fun data => exists rec, In rec rows /\ songplay_row_of rec data) sent
  /\ (List.length sent <= List.length rows)%nat.
Proof.
  intros Hread sent. subst sent.
  destruct (process_log_file W cur filepath h) as [r es] eqn:E.
  destruct (@process_log_file_phases _ _ _ _ _ _ _ Hread E)
    as [(-> & -> & _)|[(k & d & -> & ->)
                      |[(k & d & -> & ->)|(h' & es' & Hloop & ->)]]];
    cbn [fst snd]; rewrite executed_read, ?executed_app,
                     ?executed_map_other by reflexivity; cbn [app].
  - split; [constructor|cbn; lia].
  - split; [constructor|cbn; lia].
  - split; [constructor|cbn; lia].
  - apply songplay_loop_shape in Hloop.
    destruct Hloop as (_ & _ & Hall & Hlen & _). split; assumption.
Qed.

(* ------------------------------------------------------------------ *)
(** * More on the rows of a log file *)

Lemma filter_all {A} (p : A -> bool) l :
  (forall x, In x l -> p x = true) -> filter p l = l.
Proof.
  induction l as [|x l IH]; intros H; [reflexivity|].
  cbn. rewrite (H x (or_introl eq_refl)). f_equal.
  apply IH. intros y Hy. apply H. right. exact Hy.
Qed.

Lemma drop_duplicates_from_distinct {A} (subset : A -> pyval) seen rows :
  NoDup (map (fun r => key_of (subset r)) rows) ->
  (forall r, In r rows -> ~ In (key_of (subset r)) seen) ->
  drop_duplicates_from seen subset rows = rows.
Proof.
  revert seen. induction rows as [|r rows IH]; intros seen Hnd Hout;
    [reflexivity|].
  cbn [drop_duplicates_from].
  destruct (existsb (hkey_eqb (key_of (subset r))) seen) eqn:Hseen.
  - exfalso. apply (Hout r (or_introl eq_refl)). apply existsb_hkey, Hseen.
  - f_equal. inversion Hnd as [|? ? Hr Hrest]; subst.
    apply IH; [exact Hrest|].
    intros x Hx [Heq|Hin].
    + apply Hr. rewrite Heq. apply (in_map (fun r => key_of (subset r))), Hx.
    + apply (Hout x (or_intror Hx)), Hin.
Qed.

Lemma NoDup_map_same {A B} (f : A -> B) l a b :
  NoDup (map f l) -> In a l -> In b l -> f a = f b -> a = b.
Proof.
  induction l as [|x l IH]; cbn; [intros _ []|].
  intros Hnd Ha Hb Hf. inversion Hnd as [|? ? Hx Hl]; subst.
  destruct Ha as [->|Ha], Hb as [->|Hb]; auto.
  - exfalso. apply Hx. rewrite Hf. apply in_map, Hb.
  - exfalso. apply Hx. rewrite <- Hf. apply in_map, Ha.
Qed.

(** X7: when every record of a log file has a different user_id and no
    missing User field, a run that ends normally has sent one User row for
    each record, in file order: nothing is dropped. *)
Theorem user_row_for_every_distinct_record (W : world) (cur : cursor)
    (filepath : path) (rows : list log_record) (h : list event) :
  read_json W filepath = inr (LogFrame rows) ->
  NoDup (map (fun r => key_of (userId r)) rows) ->
  (forall r, In r rows -> existsb isna (user_columns r) = false) ->
  fst (process_log_file W cur filepath h) = inr tt ->
  executed user_table_insert (snd (process_log_file W cur filepath h))
  = map user_columns rows.
Proof.
  intros Hread Hnd Hfull Hok.
  destruct (process_log_file_user_rows W cur filepath h Hread) as (k & -> & Hk).
  rewrite (Hk Hok). unfold user_rows, drop_duplicates.
  rewrite drop_duplicates_from_distinct.
  - apply filter_all. intros row Hrow. apply in_map_iff in Hrow.
    destruct Hrow as (r & <- & Hr). rewrite (Hfull r Hr). reflexivity.
  - rewrite map_map. exact Hnd.
  - intros r _ [].
Qed.

(** X8: when the first record of a log file that carries some user_id has
    all its User fields, a run that ends normally has sent the User row of
    that record, and no other row for that user_id: what later records of
    the same user hold, such as another level, is not recorded. *)
Theorem first_complete_record_is_the_user_row (W : world) (cur : cursor)
    (filepath : path) (before after : list log_record) (r : log_record)
    (h : list event) :
  read_json W filepath = inr (LogFrame (before ++ r :: after)) ->
  (forall r', In r' before -> key_of (userId r') <> key_of (userId r)) ->
  existsb isna (user_columns r) = false ->
  fst (process_log_file W cur filepath h) = inr tt ->
  let written :=
    executed user_table_insert (snd (process_log_file W cur filepath h)) in
  In (user_columns r) written
  /\ forall row, In row written ->
                 key_of (column_userId row) = key_of (userId r) ->
                 row = user_columns r.
Proof.
  intros Hread Hfirst Hfull Hok written. subst written.
  destruct (process_log_file_user_rows W cur filepath h Hread) as (k & -> & Hk).
  rewrite (Hk Hok).
  assert (Hin : In (user_columns r) (user_rows (before ++ r :: after))).
  { rewrite user_rows_spec. unfold spec_user_rows.
    apply in_map_iff. exists (before, r). split; [reflexivity|].
    apply filter_In. split.
    - rewrite with_prefixes_app. apply in_or_app. right. left. reflexivity.
    - cbn [fst snd]. apply andb_true_iff. split.
      + apply forallb_forall. intros r' Hr'. apply negb_true_iff.
        apply hkey_eqb_neq. exact (Hfirst r' Hr').
      + rewrite <- negb_existsb_forallb, Hfull. reflexivity. }
  split; [exact Hin|].
  intros row Hrow Hkey.
  apply (NoDup_map_same (fun row => key_of (column_userId row))
           (user_rows (before ++ r :: after)));
    [apply user_rows_NoDup|exact Hrow|exact Hin|exact Hkey].
Qed.

Lemma calendar_decomposition_ranges t hour day week month year_ weekday :
  calendar_decomposition t hour day week month year_ weekday ->
  0 <= hour <= 23 /\ 1 <= day <= 31 /\ 1 <= week <= 53
  /\ 1 <= month <= 12 /\ 0 <= weekday <= 6.
Proof.
  intros [[Hm Hd] _ Hhour _ Hwd _ (iy & Hi & Hweek)].
  cbv zeta in Hi, Hweek.
  assert (Hdim : days_in_month year_ month <= 31).
  { unfold days_in_month.
    destruct (month_cases Hm) as [H|[H|[H|[H|[H|[H|[H|[H|[H|[H|[H|H]]]]]]]]]]];
      subst month; try lia. destruct (leap year_); lia. }
  pose proof (jan1_succ iy) as Hnext.
  pose proof (year_length_bounds iy) as Hlen.
  repeat split; try lia.
  - subst week. Z.div_mod_to_equations. lia.
  - subst week. Z.div_mod_to_equations. lia.
Qed.

Lemma Forall2_right {A B} (R : A -> B -> Prop) (P : B -> Prop) l l' :
  Forall2 R l l' -> (forall a b, R a b -> P b) -> Forall P l'.
Proof.
  intros H HP. induction H; constructor; eauto.
Qed.

(** X9: whatever the timestamps of a log file, every Time row sent holds
    an hour from 0 to 23, a day from 1 to 31, an ISO week from 1 to 53, a
    month from 1 to 12 and a weekday from 0 to 6. *)
Theorem time_row_fields_in_range (W : world) (cur : cursor)
    (filepath : path) (rows : list log_record) (h : list event) :
  read_json W filepath = inr (LogFrame rows) ->
  Forall time_row_in_range
         (executed time_table_insert
                   (snd (process_log_file W cur filepath h))).
Proof.
  intros Hread.
  destruct (process_log_file_time_rows W cur filepath h Hread) as (k & -> & _).
  apply Forall_forall. intros row Hrow. apply firstn_incl in Hrow.
  revert row Hrow. apply Forall_forall.
  eapply Forall2_right; [apply time_rows_of_next_song|].
  intros r row (hour & day & week & month & year_ & weekday & -> & Hcal).
  exists (ts r), hour, day, week, month, year_, weekday.
  split; [reflexivity|]. exact (calendar_decomposition_ranges Hcal).
Qed.

(* ------------------------------------------------------------------ *)
(** * More on the loop over files *)

Lemma count_app p a b : count p (a ++ b) = (count p a + count p b)%nat.
Proof. unfold count. rewrite filter_app, length_app. reflexivity. Qed.

Lemma count_data_events p es :
  (forall ev, data_event ev -> p ev = false) ->
  Forall data_event es -> count p es = O.
Proof.
  intros Hp Hes. unfold count. induction Hes as [|ev es Hev _ IH];
    [reflexivity|].
  cbn. rewrite (Hp ev Hev). exact IH.
Qed.

Lemma printed_app a b : printed (a ++ b) = printed a ++ printed b.
Proof. unfold printed. apply flat_map_app. Qed.

Lemma printed_data_events es : Forall data_event es -> printed es = [].
Proof.
  intros Hes. induction Hes as [|ev es Hev _ IH]; [reflexivity|].
  destruct ev; try contradiction; exact IH.
Qed.

Section BatchOutcomes.

Variable W : world.
Variable cur : cursor.
Variable conn : connection.
Variable func : transformer.
Variable num_files : nat.

Hypothesis func_events :
  forall filepath h, Forall data_event (snd (func_call func cur filepath h)).

(** The transformer followed by the commit: statements and reads, then the
    commit if the transformer got that far. *)
Lemma attempt_shape datafile h r es :
  (func_call func cur datafile ;; conn_commit W conn) h = (r, es) ->
  exists ef,
    Forall data_event ef
    /\ (es = ef \/ es = ef ++ [Commit])
    /\ (r = inr tt -> es = ef ++ [Commit]).
Proof.
  rewrite bind_eq. pose proof (func_events datafile h) as Hf.
  destruct (func_call func cur datafile h) as [[x|[]] ef]; cbn [snd] in Hf.
  - intros [= <- <-]. exists ef. repeat split; auto. discriminate.
  - unfold conn_commit. destruct (commit_error W _);
      intros [= <- <-]; exists ef; repeat split; auto.
Qed.

Lemma process_one_counts i datafile h es :
  process_one W cur conn func num_files i datafile h = (inr tt, es) ->
  (count is_progress es + count is_report es = 1)%nat
  /\ count is_rollback es = count is_report es
  /\ (count is_progress es <= count is_commit es)%nat.
Proof.
  rewrite process_one_eq.
  destruct ((func_call func cur datafile ;; conn_commit W conn) h)
    as [[x|[]] ea] eqn:Ea;
    apply attempt_shape in Ea; destruct Ea as (ef & Hef & Hshape & Hok).
  - destruct x; try discriminate. cbv zeta.
    destruct (rollback_error W _); [discriminate|].
    intros [= <-]. rewrite !count_app.
    assert (Hz : forall p, (forall ev, data_event ev -> p ev = false) ->
                           count p ef = O)
      by (intros p Hp; apply count_data_events; assumption).
    destruct Hshape as [->| ->]; rewrite ?count_app, !Hz;
      try (intros [] Hev; try contradiction; reflexivity);
      cbn; lia.
  - intros [= <-]. rewrite (Hok eq_refl), !count_app.
    assert (Hz : forall p, (forall ev, data_event ev -> p ev = false) ->
                           count p ef = O)
      by (intros p Hp; apply count_data_events; assumption).
    rewrite !Hz;
      try (intros [] Hev; try contradiction; reflexivity).
    cbn. lia.
Qed.

Lemma process_files_counts i files h es :
  process_files W cur conn func num_files i files h = (inr tt, es) ->
  (count is_progress es + count is_report es = List.length files)%nat
  /\ count is_rollback es = count is_report es
  /\ (count is_progress es <= count is_commit es)%nat.
Proof.
  revert i h es. induction files as [|f files IH]; intros i h es.
  - cbn. intros [= <-]. cbn. lia.
  - cbn [process_files]. rewrite bind_eq.
    destruct (process_one W cur conn func num_files i f h)
      as [[x|[]] e1] eqn:E1; [discriminate|].
    destruct (process_files W cur conn func num_files (S i) files (h ++ e1))
      as [r e2] eqn:E2.
    intros [= -> <-]. apply process_one_counts in E1. apply IH in E2.
    rewrite !count_app. cbn [List.length]. lia.
Qed.

(** One turn of the loop that ends normally is one of the two outcomes of
    its file. *)
Lemma process_one_outcome i datafile h es :
  process_one W cur conn func num_files i datafile h = (inr tt, es) ->
  file_outcome (func_name func) num_files (i, datafile) es.
Proof.
  rewrite process_one_eq.
  destruct ((func_call func cur datafile ;; conn_commit W conn) h)
    as [[x|[]] ea] eqn:Ea;
    apply attempt_shape in Ea; destruct Ea as (ef & Hef & Hshape & Hok).
  - destruct x as [e| | |]; try discriminate. cbv zeta.
    destruct (rollback_error W _); [discriminate|].
    intros [= <-]. right. exists ef, e. split; [exact Hef|].
    destruct Hshape as [->| ->]; [left; reflexivity|right].
    rewrite <- app_assoc. reflexivity.
  - intros [= <-]. left. exists ef. split; [exact Hef|].
    rewrite (Hok eq_refl), <- app_assoc. reflexivity.
Qed.

(** The trace of a loop that ends normally is made of one turn for each
    file, in order, the [j]-th file of the list at position [i + j]. *)
Lemma process_files_outcomes i files h es :
  process_files W cur conn func num_files i files h = (inr tt, es) ->
  exists turns,
    es = List.concat turns
    /\ Forall2 (file_outcome (func_name func) num_files)
               (combine (seq i (List.length files)) files) turns.
Proof.
  revert i h es. induction files as [|f files IH]; intros i h es.
  - cbn. intros [= <-]. exists []. split; [reflexivity|constructor].
  - cbn [process_files]. rewrite bind_eq.
    destruct (process_one W cur conn func num_files i f h)
      as [[x|[]] e1] eqn:E1; [discriminate|].
    destruct (process_files W cur conn func num_files (S i) files (h ++ e1))
      as [r e2] eqn:E2.
    intros [= -> <-]. apply process_one_outcome in E1. apply IH in E2.
    destruct E2 as (turns & -> & Hturns).
    exists (e1 :: turns). split; [reflexivity|].
    cbn [List.length seq combine]. constructor; assumption.
Qed.

End BatchOutcomes.

(** X10: when the loop over files ends normally, its trace is made of one
    turn for each file, in the order of the list, and the turn of a file
    has exactly one of two outcomes: the transformer's reads and
    statements, then the commit, then the progress line with the file's
    position; or the reads and statements, then the commit if the
    transformer got that far, then the failure report naming the file, the
    error and the rollback.  So the progress lines and the reports are
    together as many as the files, every report is followed by a rollback
    and every progress line comes right after a commit. *)
Theorem one_outcome_per_file (W : world) (cur : cursor) (conn : connection)
    (func : transformer) (num_files i : nat) (files : list path)
    (h : list event) :
  func = song_transformer W \/ func = log_transformer W ->
  fst (process_files W cur conn func num_files i files h) = inr tt ->
  let es := snd (process_files W cur conn func num_files i files h) in
  (exists turns,
      es = List.concat turns
      /\ Forall2 (fun turn es' =>
                    (exists data,
                        Forall data_event data
                        /\ es' = data
                                 ++ [Commit;
                                     Print (FilesProcessed (fst turn)
                                                           num_files)])
                    \/ (exists data e,
                           Forall data_event data
                           /\ (es' = data
                                     ++ [Print (DatabaseError (snd turn)
                                                              (func_name func));
                                         Print (ErrorDetail e); Rollback]
                               \/ es' = data
                                        ++ [Commit;
                                            Print (DatabaseError
                                                     (snd turn)
                                                     (func_name func));
                                            Print (ErrorDetail e);
                                            Rollback])))
                 (combine (seq i (List.length files)) files) turns)
  /\ (count is_progress es + count is_report es = List.length files)%nat
  /\ count is_rollback es = count is_report es
  /\ (count is_progress es <= count is_commit es)%nat.
Proof.
  intros Hfunc Hok es. subst es.
  destruct (process_files W cur conn func num_files i files h) as [r es] eqn:E.
  cbn [fst snd] in *. subst r.
  assert (Hevents : forall filepath h',
             Forall data_event (snd (func_call func cur filepath h'))).
  { destruct Hfunc as [-> | ->]; intros filepath h'; cbn [func_call
      song_transformer log_transformer].
    - apply song_file_data_events.
    - apply log_file_data_events. }
  split.
  - exact (@process_files_outcomes W cur conn func num_files Hevents
             i files h es E).
  - exact (@process_files_counts W cur conn func num_files Hevents
             i files h es E).
Qed.

Section ProperBatch.

Variable W : world.
Variable cur : cursor.
Variable conn : connection.
Variable func : transformer.
Variable num_files : nat.

Hypothesis rollback_ok : forall h, rollback_error W h = None.

(** A file whose transformer can only fail with a store error never ends
    the loop. *)
Lemma process_one_contained i datafile h :
  (forall x, fst (func_call func cur datafile h) = inl x ->
             exists detail, x = psycopg2_Error detail) ->
  fst (process_one W cur conn func num_files i datafile h) = inr tt.
Proof.
  intros Hkind. rewrite process_one_eq, bind_eq.
  destruct (func_call func cur datafile h) as [[x|[]] ef]; cbn [fst] in Hkind.
  - destruct (Hkind x eq_refl) as (detail & ->). cbv zeta.
    rewrite rollback_ok. reflexivity.
  - unfold conn_commit. destruct (commit_error W _); cbv zeta;
      rewrite ?rollback_ok; reflexivity.
Qed.

Lemma process_files_contained i files h :
  (forall f h' x, In f files ->
                  fst (func_call func cur f h') = inl x ->
                  exists detail, x = psycopg2_Error detail) ->
  fst (process_files W cur conn func num_files i files h) = inr tt.
Proof.
  revert i h. induction files as [|f files IH]; intros i h Hkind;
    [reflexivity|].
  cbn [process_files]. rewrite bind_eq.
  pose proof (process_one_contained i f h
                (fun x => Hkind f h x (or_introl eq_refl))) as H1.
  destruct (process_one W cur conn func num_files i f h) as [r1 e1].
  cbn [fst] in H1. subst r1.
  specialize (IH (S i) (h ++ e1)
                 (fun f' h' x Hin => Hkind f' h' x (or_intror Hin))).
  destruct (process_files W cur conn func num_files (S i) files (h ++ e1))
    as [r2 e2]. exact IH.
Qed.

End ProperBatch.

(** X11: when every file of the list holds what its transformer expects
    (a song file a record, a log file the log columns and timestamps
    within the bounds of a Timestamp) and rollbacks succeed, the loop over
    files always ends normally: no failure of the store, in whatever
    statement or commit, stops the batch. *)
Theorem proper_files_never_stop_the_batch (W : world) (cur : cursor)
    (conn : connection) (num_files i : nat) (files : list path)
    (h : list event) :
  (forall h', rollback_error W h' = None) ->
  ((forall f, In f files -> proper_song_file W f) ->
   fst (process_files W cur conn (song_transformer W) num_files i files h)
   = inr tt)
  /\ ((forall f, In f files -> proper_log_file W f) ->
      fst (process_files W cur conn (log_transformer W) num_files i files h)
      = inr tt).
Proof.
  intros Hrb. split; intros Hfiles; apply process_files_contained;
    try exact Hrb; intros f h' x Hin; cbn [func_call song_transformer
    log_transformer].
  - destruct (Hfiles f Hin) as (r & rest & Hread).
    exact (@song_file_error_kind W cur f r rest h' x Hread).
  - destruct (Hfiles f Hin) as (rows & Hread & Hb).
    exact (@log_file_error_kind W cur f rows h' x Hread Hb).
Qed.

(** X12: when the rollback that follows a store error fails too, its error
    leaves the handler: the loop ends at that file with the rollback's
    error, and the files after it are not processed. *)
Theorem failed_rollback_ends_batch (W : world) (cur : cursor)
    (conn : connection) (func : transformer) (num_files i : nat)
    (datafile : path) (rest : list path) (h es : list event)
    (e detail : string) :
  (func_call func cur datafile ;; conn_commit W conn) h
  = (inl (psycopg2_Error e), es) ->
  rollback_error W ((h ++ es)
                    ++ [Print (DatabaseError datafile (func_name func));
                        Print (ErrorDetail e)]) = Some detail ->
  process_files W cur conn func num_files i (datafile :: rest) h
  = (inl (psycopg2_Error detail),
     es ++ [Print (DatabaseError datafile (func_name func));
            Print (ErrorDetail e); Rollback]).
Proof.
  intros Hbody Hrb. cbn [process_files].
  rewrite bind_eq, process_one_eq, Hbody. cbv zeta. rewrite Hrb.
  reflexivity.
Qed.

(** X13: a directory that does not exist is taken for an empty one:
    [process_data] prints that 0 files were found and returns, without
    reading a file or touching the store. *)
Theorem missing_directory_is_empty (W : world) (cur : cursor)
    (conn : connection) (filepath : path) (func : transformer)
    (h : list event) :
  listdir (cwd_entries W) filepath = None ->
  process_data W cur conn filepath func h
  = (inr tt, [Print (FilesFound 0 filepath)]).
Proof.
  intros Hdir. unfold process_data, all_json_files, os_walk.
  rewrite Hdir. reflexivity.
Qed.

(* ------------------------------------------------------------------ *)
(** * Runs without store error *)

Lemma song_file_accepted (W : world) (cur : cursor) filepath h :
  accepting W -> proper_song_file W filepath ->
  fst (process_song_file W cur filepath h) = inr tt.
Proof.
  intros [Hex _] (r & rest & Hread).
  rewrite (process_song_file_eq W cur filepath h Hread). cbv zeta.
  rewrite !Hex. reflexivity.
Qed.

Lemma log_file_accepted (W : world) (cur : cursor) filepath h :
  accepting W -> proper_log_file W filepath ->
  fst (process_log_file W cur filepath h) = inr tt.
Proof.
  intros [Hex _] (rows & Hread & Hb).
  exact (@process_log_file_accepted W cur filepath rows h Hread Hb Hex).
Qed.

Section CleanRun.

Variable W : world.
Variable cur : cursor.
Variable conn : connection.
Variable func : transformer.
Variable num_files : nat.

Hypothesis commit_ok : forall h, commit_error W h = None.

Lemma process_files_clean i files h :
  (forall f h', In f files ->
                fst (func_call func cur f h') = inr tt
                /\ Forall data_event (snd (func_call func cur f h'))) ->
  exists es,
    process_files W cur conn func num_files i files h = (inr tt, es)
    /\ printed es
       = map (fun j => FilesProcessed j num_files) (seq i (List.length files))
    /\ count is_commit es = List.length files
    /\ count is_rollback es = O.
Proof.
  revert i h. induction files as [|f files IH]; intros i h Hfunc.
  - exists []. repeat split.
  - cbn [process_files]. rewrite bind_eq, process_one_eq, bind_eq.
    destruct (Hfunc f h (or_introl eq_refl)) as [Hok Hdata].
    destruct (func_call func cur f h) as [r ef]. cbn [fst snd] in *.
    subst r. unfold conn_commit. rewrite commit_ok.
    destruct (IH (S i) (h ++ (ef ++ [Commit])
                          ++ [Print (FilesProcessed i num_files)])
                 (fun f' h' Hin => Hfunc f' h' (or_intror Hin)))
      as (es & -> & Hp & Hc & Hr).
    eexists. split; [reflexivity|].
    rewrite !printed_app, !count_app, Hp, Hc, Hr.
    rewrite (printed_data_events Hdata).
    assert (Hz : forall p, (forall ev, data_event ev -> p ev = false) ->
                           count p ef = O)
      by (intros p Hq; apply count_data_events; assumption).
    rewrite !Hz; try (intros [] Hev; try contradiction; reflexivity).
    repeat split.
Qed.

End CleanRun.

(** X14: with a store that accepts every statement and commit and a
    directory whose files all hold what the transformer expects (a song
    file a record, a log file the log columns and timestamps within the
    bounds of a Timestamp), [process_data] returns normally; it prints the number of files found
    and then one progress line per file, numbered 1, 2, ... to that number;
    it commits once per file and never rolls back. *)
Theorem clean_run_reports_every_file (W : world) (cur : cursor)
    (conn : connection) (filepath : path) (func : transformer)
    (h : list event) :
  accepting W ->
  (func = song_transformer W
   /\ forall f, In f (all_json_files (cwd W) (cwd_entries W) filepath) ->
                proper_song_file W f)
  \/ (func = log_transformer W
      /\ forall f, In f (all_json_files (cwd W) (cwd_entries W) filepath) ->
                   proper_log_file W f) ->
  let n := List.length (all_json_files (cwd W) (cwd_entries W) filepath) in
  let es := snd (process_data W cur conn filepath func h) in
  fst (process_data W cur conn filepath func h) = inr tt
  /\ printed es
     = FilesFound n filepath :: map (fun j => FilesProcessed j n) (seq 1 n)
  /\ count is_commit es = n
  /\ count is_rollback es = O.
Proof.
  intros Hacc Hfiles n es. subst es. unfold process_data.
  fold n. rewrite bind_eq. unfold py_print, emit.
  destruct (@process_files_clean W cur conn func n (proj2 Hacc) 1
              (all_json_files (cwd W) (cwd_entries W) filepath)
              (h ++ [Print (FilesFound n filepath)])) as (es & Hpf & Hp & Hc & Hr).
  - intros f h' Hin.
    destruct Hfiles as [[-> Hall]|[-> Hall]];
      cbn [func_call song_transformer log_transformer]; split.
    + apply song_file_accepted; auto.
    + apply song_file_data_events.
    + apply log_file_accepted; auto.
    + apply log_file_data_events.
  - cbv beta iota. rewrite Hpf. cbn [fst snd app]. fold n in Hp, Hc.
    repeat split.
    + change (printed (Print (FilesFound n filepath) :: es))
        with (FilesFound n filepath :: printed es).
      rewrite Hp. reflexivity.
    + exact Hc.
    + exact Hr.
Qed.

(* ------------------------------------------------------------------ *)
(** * More on main *)

Lemma process_one_no_close (W : world) cur conn func num_files i datafile h :
  (forall filepath h', Forall data_event (snd (func_call func cur filepath h'))) ->
  ~ In Close (snd (process_one W cur conn func num_files i datafile h)).
Proof.
  intros Hdata. rewrite process_one_eq, bind_eq.
  specialize (Hdata datafile h).
  assert (Hno : forall es, Forall data_event es -> ~ In Close es).
  { intros es Hes Hin. rewrite Forall_forall in Hes.
    exact (Hes Close Hin). }
  destruct (func_call func cur datafile h) as [[x|[]] ef]; cbn [snd] in Hdata.
  - destruct x; cbn [snd]; try (apply Hno; exact Hdata).
    intros Hin. apply in_app_or in Hin. destruct Hin as [Hin|Hin].
    + exact (Hno ef Hdata Hin).
    + cbn in Hin. intuition discriminate.
  - unfold conn_commit. destruct (commit_error W _); cbn [snd];
      intros Hin; repeat (apply in_app_or in Hin; destruct Hin as [Hin|Hin]);
      try exact (Hno ef Hdata Hin); cbn in Hin; intuition discriminate.
Qed.

Lemma process_files_no_close (W : world) cur conn func num_files i files h :
  (forall filepath h', Forall data_event (snd (func_call func cur filepath h'))) ->
  ~ In Close (snd (process_files W cur conn func num_files i files h)).
Proof.
  intros Hdata. revert i h. induction files as [|f files IH]; intros i h.
  - cbn. tauto.
  - cbn [process_files]. rewrite bind_eq.
    pose proof (process_one_no_close W cur conn func num_files i f h Hdata) as H1.
    destruct (process_one W cur conn func num_files i f h) as [[x|[]] e1];
      [exact H1|].
    specialize (IH (S i) (h ++ e1)).
    destruct (process_files W cur conn func num_files (S i) files (h ++ e1))
      as [r e2]. cbn [snd] in *.
    intros Hin. apply in_app_or in Hin. tauto.
Qed.

Lemma process_data_no_close (W : world) cur conn filepath func h :
  func = song_transformer W \/ func = log_transformer W ->
  ~ In Close (snd (process_data W cur conn filepath func h)).
Proof.
  intros Hfunc. unfold process_data. rewrite bind_eq.
  unfold py_print, emit.
  match goal with
  | |- context [process_files W cur conn func ?n ?i ?files ?h'] =>
      pose proof (@process_files_no_close W cur conn func n i files h') as Hno;
      destruct (process_files W cur conn func n i files h') as [r es]
  end.
  cbn [snd] in *. intros [Hin|Hin]; [discriminate|].
  apply Hno; [|exact Hin].
  destruct Hfunc as [-> | ->]; intros p h';
    cbn [func_call song_transformer log_transformer].
  - apply song_file_data_events.
  - apply log_file_data_events.
Qed.

(** X15: once connected, [main] processes the song directory, then the log
    directory, then closes the connection; an error that ends either run
    ends [main] there, so the log directory is processed only after a song
    run that ended normally, and the connection is closed exactly when
    [main] returns normally. *)
Theorem main_runs_in_order (W : world) (h : list event) :
  connect_error W = None ->
  cursor_error W = None ->
  let song_run :=
    process_data W Cur Conn ["data"; "song_data"] (song_transformer W)
                 (h ++ [Connect]) in
  let log_run :=
    process_data W Cur Conn ["data"; "log_data"] (log_transformer W)
                 ((h ++ [Connect]) ++ snd song_run) in
  main W h =
  match fst song_run with
  | inl x => (inl x, Connect :: snd song_run)
  | inr _ =>
      match fst log_run with
      | inl x => (inl x, Connect :: snd song_run ++ snd log_run)
      | inr _ => (inr tt, Connect :: snd song_run ++ snd log_run ++ [Close])
      end
  end
  /\ (In Close (snd (main W h)) <-> fst (main W h) = inr tt).
Proof.
  intros Hconn Hcur song_run log_run.
  assert (Hmain : main W h =
    match fst song_run with
    | inl x => (inl x, Connect :: snd song_run)
    | inr _ =>
        match fst log_run with
        | inl x => (inl x, Connect :: snd song_run ++ snd log_run)
        | inr _ => (inr tt, Connect :: snd song_run ++ snd log_run ++ [Close])
        end
    end).
  { unfold main. rewrite bind_eq. unfold connect_block.
    rewrite Hconn, Hcur. rewrite bind_eq. cbn [ret local_cur local_conn].
    rewrite bind_eq. cbn [load_local ret]. rewrite bind_eq.
    cbn [load_local ret]. rewrite ?app_nil_r. rewrite bind_eq.
    fold song_run. destruct song_run as [[x|[]] e1] eqn:E1; cbn [fst snd] in *;
      [reflexivity|].
    rewrite bind_eq. cbn [load_local ret]. rewrite bind_eq.
    cbn [load_local ret]. rewrite ?app_nil_r. rewrite bind_eq.
    subst log_run.
    destruct (process_data W Cur Conn ["data"; "log_data"] (log_transformer W)
                ((h ++ [Connect]) ++ e1)) as [[x|[]] e2]; cbn [fst snd];
      [reflexivity|].
    rewrite bind_eq. cbn [load_local ret]. unfold conn_close, emit.
    cbn [app]. rewrite ?app_nil_r. reflexivity. }
  split; [exact Hmain|]. rewrite Hmain.
  pose proof (@process_data_no_close W Cur Conn ["data"; "song_data"]
                (song_transformer W) (h ++ [Connect]) (or_introl eq_refl)) as N1.
  pose proof (@process_data_no_close W Cur Conn ["data"; "log_data"]
                (log_transformer W) ((h ++ [Connect]) ++ snd song_run)
                (or_intror eq_refl)) as N2.
  fold song_run in N1. fold log_run in N2.
  destruct (fst song_run) as [x|[]].
  - cbn [fst snd]. split; [|discriminate].
    intros [Hin|Hin]; [discriminate|contradiction].
  - destruct (fst log_run) as [x|[]]; cbn [fst snd].
    + split; [|discriminate].
      intros [Hin|Hin]; [discriminate|].
      apply in_app_or in Hin. tauto.
    + split; [reflexivity|]. intros _. right.
      apply in_or_app. right. apply in_or_app. right. left. reflexivity.
Qed.

(* ------------------------------------------------------------------ *)
(** * More on the file walker *)

Lemma match_star toks s :
  match_tokens (TStar :: toks) s = true <->
  exists s1 s2, s = s1 ++ s2 /\ match_tokens toks s2 = true.
Proof.
  induction s as [|c s IH].
  - cbn. rewrite orb_false_r. split.
    + intros H. exists [], []. auto.
    + intros (s1 & s2 & Heq & H). symmetry in Heq.
      apply app_eq_nil in Heq. destruct Heq as [-> ->]. exact H.
  - change (match_tokens (TStar :: toks) (c :: s))
      with (match_tokens toks (c :: s) || match_tokens (TStar :: toks) s).
    rewrite orb_true_iff, IH. split.
    + intros [H|(s1 & s2 & -> & H)].
      * exists [], (c :: s). auto.
      * exists (c :: s1), s2. auto.
    + intros ([|c' s1] & s2 & Heq & H).
      * left. cbn in Heq. subst s2. exact H.
      * right. cbn in Heq. injection Heq as <- ->. exists s1, s2. auto.
Qed.

Lemma match_chars l s :
  match_tokens (map TChar l) s = true <-> s = l.
Proof.
  revert s. induction l as [|c l IH]; intros [|c' s]; cbn;
    try (split; [discriminate|discriminate]); [tauto|].
  rewrite andb_true_iff, IH, Ascii.eqb_eq. split.
  - intros [-> ->]. reflexivity.
  - intros [= -> ->]. auto.
Qed.

Lemma list_ascii_of_string_append a b :
  list_ascii_of_string (a ++ b)%string
  = list_ascii_of_string a ++ list_ascii_of_string b.
Proof.
  induction a as [|c a IH]; [reflexivity|]. cbn. f_equal. exact IH.
Qed.

(** The names that the pattern [*.json] matches are those that end in
    [.json]. *)
Lemma fnmatch_json name :
  fnmatch name "*.json" = true <-> exists stem, name = (stem ++ ".json")%string.
Proof.
  unfold fnmatch.
  change (translate _ (list_ascii_of_string "*.json"))
    with (TStar :: map TChar (list_ascii_of_string ".json")).
  rewrite match_star. split.
  - intros (s1 & s2 & Heq & H). apply match_chars in H. subst s2.
    exists (string_of_list_ascii s1).
    rewrite <- (string_of_list_ascii_of_string name), Heq.
    rewrite <- (string_of_list_ascii_of_string ".json") at 2.
    clear Heq. induction s1 as [|c s1 IH]; [reflexivity|].
    cbn. f_equal. exact IH.
  - intros (stem & ->). exists (list_ascii_of_string stem), (list_ascii_of_string ".json").
    split; [apply list_ascii_of_string_append|].
    apply match_chars. reflexivity.
Qed.

(** X16: whatever the tree, every path of the file list is an absolute
    path, that of the working directory followed by a relative one, and its
    last component ends in [.json] and does not start with a dot. *)
Theorem listed_files_end_in_json (cwd_ : path) (entries : list node)
    (filepath f : path) :
  In f (all_json_files cwd_ entries filepath) ->
  exists dir stem,
    f = cwd_ ++ dir ++ [(stem ++ ".json")%string]
    /\ ishidden (stem ++ ".json")%string = false.
Proof.
  unfold all_json_files. intros Hin.
  apply in_flat_map in Hin. destruct Hin as (root & _ & Hin).
  apply in_map_iff in Hin. destruct Hin as (g & <- & Hg).
  unfold glob_json in Hg. cbn [iglob] in Hg.
  change (has_magic "*.json") with true in Hg. cbv iota in Hg.
  apply in_flat_map in Hg. destruct Hg as (dir & _ & Hg).
  apply in_map_iff in Hg. destruct Hg as (name & <- & Hname).
  unfold glob1 in Hname. destruct (listdir entries dir) as [sub|];
    [|contradiction].
  change (ishidden "*.json") with false in Hname. cbv iota in Hname.
  apply filter_In in Hname. destruct Hname as [Hname Hmatch].
  apply filter_In in Hname. destruct Hname as [_ Hhidden].
  apply fnmatch_json in Hmatch. destruct Hmatch as (stem & ->).
  exists dir, stem. split; [reflexivity|].
  apply negb_true_iff. exact Hhidden.
Qed.

(** X17: [glob] does not tell directories from files: a directory of the
    root whose name ends in [.json] is put in the file list like a file. *)
Theorem directory_named_json_is_listed (cwd_ : path) (entries : list node)
    (filepath : path) (sub inside : list node) (name : string) :
  listdir entries filepath = Some sub ->
  existsb has_magic filepath = false ->
  In (Dir name inside) sub ->
  fnmatch name "*.json" = true ->
  ishidden name = false ->
  In (cwd_ ++ filepath ++ [name]) (all_json_files cwd_ entries filepath).
Proof.
  intros Hdir Hplain Hin Hmatch Hhidden.
  unfold all_json_files, os_walk. rewrite Hdir.
  apply in_flat_map. exists filepath. split; [left; reflexivity|].
  apply (in_map (fun g => cwd_ ++ g)).
  unfold glob_json. cbn [iglob]. rewrite existsb_rev, Hplain, rev_involutive.
  cbn [flat_map]. rewrite app_nil_r.
  change (has_magic "*.json") with true. cbv iota.
  apply (in_map (fun n => filepath ++ [n])). unfold glob1. rewrite Hdir.
  change (ishidden "*.json") with false. cbv iota.
  apply filter_In. split; [|exact Hmatch].
  apply filter_In. split; [|rewrite Hhidden; reflexivity].
  apply in_map_iff. exists (Dir name inside). split; [reflexivity|].
  apply filter_In. split; [exact Hin|reflexivity].
Qed.

(** ** No path is listed twice on a tree with plain names *)

Lemma unique_names_NoDup names :
  unique_names names = true -> NoDup names.
Proof.
  induction names as [|n names IH]; [constructor|].
  cbn [unique_names]. rewrite andb_true_iff, negb_true_iff.
  intros [Hn Hrest]. constructor; [|auto].
  intros Hin. assert (existsb (String.eqb n) names = true); [|congruence].
  apply existsb_exists. exists n. split; [exact Hin|apply String.eqb_refl].
Qed.

Lemma NoDup_flat_map {A B} (f : A -> list B) l :
  NoDup l ->
  (forall x, In x l -> NoDup (f x)) ->
  (forall x y b, In x l -> In y l -> In b (f x) -> In b (f y) -> x = y) ->
  NoDup (flat_map f l).
Proof.
  induction l as [|x l IH]; intros Hnd Heach Hdisj; [constructor|].
  inversion Hnd as [|? ? Hx Hl]; subst. cbn [flat_map].
  apply NoDup_app.
  - apply Heach. left. reflexivity.
  - apply IH; [exact Hl| |].
    + intros y Hy. apply Heach. right. exact Hy.
    + intros y z b Hy Hz. apply Hdisj; right; assumption.
  - intros b Hb Hin. apply in_flat_map in Hin. destruct Hin as (y & Hy & Hby).
    apply Hx. rewrite (Hdisj x y b); auto; [left; reflexivity|right; exact Hy].
Qed.

Lemma NoDup_map_injective {A B} (f : A -> B) l :
  (forall a b, f a = f b -> a = b) -> NoDup l -> NoDup (map f l).
Proof.
  intros Hinj Hnd. induction Hnd as [|x l Hx _ IH]; cbn; constructor;
    [|exact IH].
  rewrite in_map_iff. intros (y & Hy & Hin). apply Hinj in Hy. subst y.
  exact (Hx Hin).
Qed.

(** The directories of a walk below [top] have different paths, each
    starting with [top] and the name of the entry. *)
Lemma walk_entry_NoDup e :
  forall top,
    plain_entry e = true ->
    NoDup (walk_entry top e)
    /\ forall p, In p (walk_entry top e) ->
                 exists rest, p = top ++ node_name e :: rest.
Proof.
  induction e as [name|name sub IH] using node_nested_ind; intros top Hplain.
  - split; [constructor|intros p []].
  - cbn [plain_entry] in Hplain. apply andb_true_iff in Hplain.
    destruct Hplain as [Hplain Hall]. apply andb_true_iff in Hplain.
    destruct Hplain as [_ Huniq].
    rewrite Forall_forall in IH. rewrite forallb_forall in Hall.
    cbn [walk_entry node_name].
    assert (Hpre : forall p, In p (flat_map (walk_entry (top ++ [name])) sub) ->
                             exists e' rest, In e' sub
                               /\ p = (top ++ [name]) ++ node_name e' :: rest).
    { intros p Hp. apply in_flat_map in Hp. destruct Hp as (e' & He' & Hp).
      destruct (IH e' He' (top ++ [name]) (Hall e' He')) as [_ Hshape].
      destruct (Hshape p Hp) as (rest & ->). exists e', rest. auto. }
    split.
    + constructor.
      * intros Hin. destruct (Hpre _ Hin) as (e' & rest & _ & Heq).
        apply (f_equal (@List.length string)) in Heq.
        rewrite !length_app in Heq. cbn [List.length] in Heq. lia.
      * apply NoDup_flat_map.
        -- apply (NoDup_map_inv node_name), unique_names_NoDup, Huniq.
        -- intros e' He'. apply (IH e' He' (top ++ [name]) (Hall e' He')).
        -- intros e1 e2 p H1 H2 Hp1 Hp2.
           destruct (IH e1 H1 (top ++ [name]) (Hall e1 H1)) as [_ S1].
           destruct (IH e2 H2 (top ++ [name]) (Hall e2 H2)) as [_ S2].
           destruct (S1 p Hp1) as (r1 & E1). destruct (S2 p Hp2) as (r2 & E2).
           rewrite E1 in E2. apply app_inv_head in E2. injection E2 as En _.
           apply (NoDup_map_same node_name sub);
             [apply unique_names_NoDup, Huniq|assumption|assumption|exact En].
    + intros p [<-|Hp].
      * exists []. reflexivity.
      * destruct (Hpre p Hp) as (e' & rest & _ & ->).
        exists (node_name e' :: rest). rewrite <- app_assoc. reflexivity.
Qed.

Lemma os_walk_NoDup entries filepath sub :
  listdir entries filepath = Some sub ->
  plain_directory sub = true ->
  NoDup (os_walk entries filepath).
Proof.
  intros Hdir Hplain. unfold os_walk. rewrite Hdir.
  unfold plain_directory in Hplain. apply andb_true_iff in Hplain.
  destruct Hplain as [Huniq Hall]. rewrite forallb_forall in Hall.
  constructor.
  - intros Hin. apply in_flat_map in Hin. destruct Hin as (e & He & Hp).
    destruct (walk_entry_NoDup e filepath (Hall e He)) as [_ Hshape].
    destruct (Hshape _ Hp) as (rest & Heq).
    apply (f_equal (@List.length string)) in Heq.
    rewrite !length_app in Heq. cbn [List.length] in Heq. lia.
  - apply NoDup_flat_map.
    + apply (NoDup_map_inv node_name), unique_names_NoDup, Huniq.
    + intros e He. apply (walk_entry_NoDup e filepath (Hall e He)).
    + intros e1 e2 p H1 H2 Hp1 Hp2.
      destruct (walk_entry_NoDup e1 filepath (Hall e1 H1)) as [_ S1].
      destruct (walk_entry_NoDup e2 filepath (Hall e2 H2)) as [_ S2].
      destruct (S1 p Hp1) as (r1 & E1). destruct (S2 p Hp2) as (r2 & E2).
      rewrite E1 in E2. apply app_inv_head in E2. injection E2 as En _.
      apply (NoDup_map_same node_name sub);
        [apply unique_names_NoDup, Huniq|assumption|assumption|exact En].
Qed.

(** The directories of a walk exist, have plain paths and unique names. *)
Lemma walk_entry_listdir entries e :
  forall top parent,
    listdir entries top = Some parent ->
    unique_names (map node_name parent) = true ->
    In e parent ->
    existsb has_magic top = false ->
    plain_entry e = true ->
    forall p, In p (walk_entry top e) ->
      exists s, listdir entries p = Some s
                /\ unique_names (map node_name s) = true
                /\ existsb has_magic p = false.
Proof.
  induction e as [name|name sub IH] using node_nested_ind;
    intros top parent Hdir Huniq Hin Htop Hplain p Hp; [destruct Hp|].
  cbn [plain_entry] in Hplain. apply andb_true_iff in Hplain.
  destruct Hplain as [Hplain Hall]. apply andb_true_iff in Hplain.
  destruct Hplain as [Hname Hu]. apply negb_true_iff in Hname.
  assert (Hsub : listdir entries (top ++ [name]) = Some sub)
    by exact (@listdir_snoc entries top parent name sub Hdir Huniq Hin).
  assert (Hmagic : existsb has_magic (top ++ [name]) = false)
    by (rewrite existsb_app, Htop; cbn; rewrite Hname; reflexivity).
  cbn [walk_entry] in Hp. destruct Hp as [<-|Hp].
  - exists sub. auto.
  - apply in_flat_map in Hp. destruct Hp as (e' & He' & Hp).
    rewrite Forall_forall in IH. rewrite forallb_forall in Hall.
    exact (IH e' He' (top ++ [name]) sub Hsub Hu He' Hmagic (Hall e' He') p Hp).
Qed.

Lemma glob_json_plain_eq entries root sub :
  existsb has_magic root = false ->
  listdir entries root = Some sub ->
  glob_json entries root
  = map (fun n => root ++ [n])
        (filter (fun n => fnmatch n "*.json")
                (filter (fun n => negb (ishidden n)) (map node_name sub))).
Proof.
  intros Hplain Hdir. unfold glob_json. cbn [iglob].
  rewrite existsb_rev, Hplain, rev_involutive.
  cbn [flat_map]. rewrite app_nil_r.
  change (has_magic "*.json") with true. cbv iota.
  unfold glob1. rewrite Hdir.
  change (ishidden "*.json") with false. cbv iota.
  do 3 f_equal. clear Hdir. induction sub as [|e sub IH]; [reflexivity|].
  cbn. f_equal. exact IH.
Qed.

(** X18: on a tree whose directory names have no wildcard character and
    whose names are unique within each directory, no path is in the file
    list twice: no file is processed more than once in a run. *)
Theorem no_file_listed_twice (cwd_ : path) (entries : list node)
    (filepath : path) (sub : list node) :
  listdir entries filepath = Some sub ->
  existsb has_magic filepath = false ->
  plain_directory sub = true ->
  NoDup (all_json_files cwd_ entries filepath).
Proof.
  intros Hdir Hmagic Hplain.
  assert (Hroots : forall root, In root (os_walk entries filepath) ->
            exists s, listdir entries root = Some s
                      /\ unique_names (map node_name s) = true
                      /\ existsb has_magic root = false).
  { intros root Hroot. unfold os_walk in Hroot. rewrite Hdir in Hroot.
    unfold plain_directory in Hplain. apply andb_true_iff in Hplain.
    destruct Hplain as [Huniq Hall]. rewrite forallb_forall in Hall.
    destruct Hroot as [<-|Hroot]; [exists sub; auto|].
    apply in_flat_map in Hroot. destruct Hroot as (e & He & Hp).
    exact (@walk_entry_listdir entries e filepath sub Hdir Huniq He Hmagic
             (Hall e He) root Hp). }
  unfold all_json_files. apply NoDup_flat_map.
  - exact (os_walk_NoDup entries filepath Hdir Hplain).
  - intros root Hroot. destruct (Hroots root Hroot) as (s & Hs & Hu & Hm).
    rewrite (glob_json_plain_eq entries root Hm Hs).
    apply NoDup_map_injective; [intros a b; apply app_inv_head|].
    apply NoDup_map_injective;
      [intros a b Hab; apply app_inv_head in Hab; congruence|].
    apply NoDup_filter, NoDup_filter, unique_names_NoDup, Hu.
  - intros r1 r2 f H1 H2 Hf1 Hf2.
    destruct (Hroots r1 H1) as (s1 & Hs1 & _ & Hm1).
    destruct (Hroots r2 H2) as (s2 & Hs2 & _ & Hm2).
    rewrite (glob_json_plain_eq entries r1 Hm1 Hs1) in Hf1.
    rewrite (glob_json_plain_eq entries r2 Hm2 Hs2) in Hf2.
    apply in_map_iff in Hf1. destruct Hf1 as (g1 & <- & Hg1).
    apply in_map_iff in Hf2. destruct Hf2 as (g2 & Heq & Hg2).
    apply app_inv_head in Heq. subst g2.
    apply in_map_iff in Hg1. destruct Hg1 as (n1 & <- & _).
    apply in_map_iff in Hg2. destruct Hg2 as (n2 & Heq & _).
    apply app_inj_tail in Heq. symmetry. tauto.
Qed.


(* ------------------------------------------------------------------ *)
(** * The further properties on sample runs *)

Lemma song_file_outcome_witness :
  process_song_file Sample.refusing_S1 Cur Sample.file_s1 []
  = (inl (psycopg2_Error "duplicate key value"),
     [ReadJson Sample.file_s1;
      Execute song_table_insert
              [PStr "S1"; PStr "T"; PStr "A1"; PInt 2000; PFloat (361 # 2)]]).
Proof.
  exact (@song_file_outcome Sample.refusing_S1 Cur Sample.file_s1
           Sample.song_S1 [] [] eq_refl).
Defined.

Lemma unreadable_file_ends_batch_witness :
  let broken := Sample.home ++ ["data"; "log_data"; "broken.json"] in
  process_files Faulty.odd_files Cur Conn (log_transformer Faulty.odd_files)
                2 1 [broken; Sample.file_events] []
  = (inl (ValueError "Expected object or value"), [ReadJson broken]).
Proof.
  refine (proj2 (proj2 (proj2
    (@unreadable_file_ends_batch Faulty.odd_files Cur Conn 2 1
       (Sample.home ++ ["data"; "log_data"; "broken.json"])
       [Sample.file_events] [] (ValueError "Expected object or value")
       eq_refl _)))).
  intros detail. discriminate.
Defined.

Lemma wrong_kind_of_file_ends_batch_witness :
  process_files Sample.healthy Cur Conn (song_transformer Sample.healthy)
                2 1 [Sample.file_events; Sample.file_s1] []
  = (inl LookupError, [ReadJson Sample.file_events]).
Proof.
  exact (@wrong_kind_of_file_ends_batch Sample.healthy Cur Conn 2 1
           Sample.file_events [Sample.file_s1] []
           (LogFrame [Sample.log_10]) eq_refl).
Defined.

Lemma log_file_phases_in_order_witness :
  exists time_part user_part songplay_part,
    snd (process_log_file Faulty.no_lookup Cur Sample.file_twice [])
    = ReadJson Sample.file_twice
      :: map (Execute time_table_insert) time_part
      ++ map (Execute user_table_insert) user_part
      ++ songplay_part
    /\ Forall songplay_event songplay_part
    /\ (user_part <> [] \/ songplay_part <> [] ->
        time_part = time_rows [Sample.log_10_anonymous; Sample.log_10])
    /\ (songplay_part <> [] ->
        user_part = user_rows [Sample.log_10_anonymous; Sample.log_10]).
Proof.
  exact (@log_file_phases_in_order Faulty.no_lookup Cur Sample.file_twice
           [Sample.log_10_anonymous; Sample.log_10] [] eq_refl).
Defined.

Lemma lookup_for_every_record_witness :
  executed song_select
           (snd (process_log_file Faulty.upgrade Cur Sample.file_twice []))
  = [[PStr "T"; PFloat (361 # 2)]; [PNone; PNaN];
     [PStr "T"; PFloat (361 # 2)]].
Proof.
  apply (proj2 (@lookup_for_every_record Faulty.upgrade Cur Sample.file_twice
                  [Sample.log_10; Faulty.log_11; Faulty.log_10_paid] []
                  eq_refl)).
  vm_compute. reflexivity.
Defined.

Lemma songplay_rows_from_records_witness :
  let sent :=
    executed songplay_table_insert
             (snd (process_log_file Faulty.upgrade Cur Sample.file_twice []))
  in
  Forall (fun data =>
            exists rec,
              In rec [Sample.log_10; Faulty.log_11; Faulty.log_10_paid]
              /\ songplay_row_of rec data) sent
  /\ (List.length sent <= 3)%nat.
Proof.
  exact (@songplay_rows_from_records Faulty.upgrade Cur Sample.file_twice
           [Sample.log_10; Faulty.log_11; Faulty.log_10_paid] [] eq_refl).
Defined.

Lemma user_row_for_every_distinct_record_witness :
  executed user_table_insert
           (snd (process_log_file Faulty.upgrade Cur Sample.file_events []))
  = [[PStr "10"; PStr "A"; PStr "B"; PStr "F"; PStr "free"];
     [PStr "11"; PStr "C"; PStr "D"; PStr "M"; PStr "free"]].
Proof.
  apply (@user_row_for_every_distinct_record Faulty.upgrade Cur
           Sample.file_events [Sample.log_10; Faulty.log_11] [] eq_refl).
  - constructor; [|constructor; [|constructor]].
    + intros [H|[]]. discriminate H.
    + intros [].
  - intros r [<-|[<-|[]]]; reflexivity.
  - vm_compute. reflexivity.
Defined.

Lemma first_complete_record_is_the_user_row_witness :
  let written :=
    executed user_table_insert
             (snd (process_log_file Faulty.upgrade Cur Sample.file_twice []))
  in
  In [PStr "10"; PStr "A"; PStr "B"; PStr "F"; PStr "free"] written
  /\ forall row, In row written ->
                 key_of (column_userId row) = key_of (PStr "10") ->
                 row = [PStr "10"; PStr "A"; PStr "B"; PStr "F"; PStr "free"].
Proof.
  apply (@first_complete_record_is_the_user_row Faulty.upgrade Cur
           Sample.file_twice [] [Faulty.log_11; Faulty.log_10_paid]
           Sample.log_10 [] eq_refl).
  - intros r' [].
  - reflexivity.
  - vm_compute. reflexivity.
Defined.

Lemma time_row_fields_in_range_witness :
  Forall time_row_in_range
         (executed time_table_insert
            (snd (process_log_file Faulty.upgrade Cur Sample.file_twice []))).
Proof.
  exact (@time_row_fields_in_range Faulty.upgrade Cur Sample.file_twice
           [Sample.log_10; Faulty.log_11; Faulty.log_10_paid] [] eq_refl).
Defined.

(** Two song files, the first refused by the store and the second
    processed: a turn with a report for the first, a turn with a progress
    line for the second. *)
Lemma one_outcome_per_file_witness :
  let es :=
    snd (process_files Sample.refusing_S1 Cur Conn
           (song_transformer Sample.refusing_S1) 2 1
           [Sample.file_s1; Sample.file_s2] []) in
  (exists turns,
      es = List.concat turns
      /\ Forall2 (fun turn es' =>
                    (exists data,
                        Forall data_event data
                        /\ es' = data
                                 ++ [Commit;
                                     Print (FilesProcessed (fst turn) 2)])
                    \/ (exists data e,
                           Forall data_event data
                           /\ (es' = data
                                     ++ [Print (DatabaseError
                                                  (snd turn)
                                                  "process_song_file");
                                         Print (ErrorDetail e); Rollback]
                               \/ es' = data
                                        ++ [Commit;
                                            Print (DatabaseError
                                                     (snd turn)
                                                     "process_song_file");
                                            Print (ErrorDetail e);
                                            Rollback])))
                 [(1%nat, Sample.file_s1); (2%nat, Sample.file_s2)] turns)
  /\ (count is_progress es + count is_report es = 2)%nat
  /\ count is_rollback es = count is_report es
  /\ (count is_progress es <= count is_commit es)%nat.
Proof.
  apply (@one_outcome_per_file Sample.refusing_S1 Cur Conn
           (song_transformer Sample.refusing_S1) 2 1
           [Sample.file_s1; Sample.file_s2] []).
  - left. reflexivity.
  - vm_compute. reflexivity.
Defined.

(** Song files with a store that refuses the first; log files, with
    timestamps of the year 2018, with a store that refuses a Time row. *)
Lemma proper_files_never_stop_the_batch_witness :
  fst (process_files Sample.refusing_S1 Cur Conn
         (song_transformer Sample.refusing_S1) 2 1
         [Sample.file_s1; Sample.file_s2] [])
  = inr tt
  /\ fst (process_files Faulty.refusing_time Cur Conn
            (log_transformer Faulty.refusing_time) 2 1
            [Sample.file_events; Sample.file_twice] [])
     = inr tt.
Proof.
  split.
  - apply (proj1 (@proper_files_never_stop_the_batch Sample.refusing_S1 Cur
                    Conn 2 1 [Sample.file_s1; Sample.file_s2] []
                    (fun _ => eq_refl))).
    intros f [<-|[<-|[]]].
    + exists Sample.song_S1, []. reflexivity.
    + exists Sample.song_S2, []. reflexivity.
  - apply (proj2 (@proper_files_never_stop_the_batch Faulty.refusing_time Cur
                    Conn 2 1 [Sample.file_events; Sample.file_twice] []
                    (fun _ => eq_refl))).
    intros f [<-|[<-|[]]].
    + exists Faulty.mixed_log. split; reflexivity.
    + exists [Sample.log_10_anonymous; Sample.log_10]. split; reflexivity.
Defined.

Lemma failed_rollback_ends_batch_witness :
  process_files Faulty.rollback_fails Cur Conn
                (song_transformer Faulty.rollback_fails) 2 1
                [Sample.file_s1; Sample.file_s2] []
  = (inl (psycopg2_Error "connection already closed"),
     [ReadJson Sample.file_s1;
      Execute song_table_insert
              [PStr "S1"; PStr "T"; PStr "A1"; PInt 2000; PFloat (361 # 2)];
      Print (DatabaseError Sample.file_s1 "process_song_file");
      Print (ErrorDetail "duplicate key value");
      Rollback]).
Proof.
  exact (@failed_rollback_ends_batch Faulty.rollback_fails Cur Conn
           (song_transformer Faulty.rollback_fails) 2 1
           Sample.file_s1 [Sample.file_s2] []
           [ReadJson Sample.file_s1;
            Execute song_table_insert
              [PStr "S1"; PStr "T"; PStr "A1"; PInt 2000; PFloat (361 # 2)]]
           "duplicate key value" "connection already closed"
           eq_refl eq_refl).
Defined.

Lemma missing_directory_is_empty_witness :
  process_data Sample.healthy Cur Conn ["data"; "user_data"]
               (log_transformer Sample.healthy) []
  = (inr tt, [Print (FilesFound 0 ["data"; "user_data"])]).
Proof.
  exact (@missing_directory_is_empty Sample.healthy Cur Conn
           ["data"; "user_data"] (log_transformer Sample.healthy) []
           eq_refl).
Defined.

Lemma clean_run_reports_every_file_witness :
  let es :=
    snd (process_data Sample.healthy Cur Conn ["data"; "log_data"]
           (log_transformer Sample.healthy) []) in
  fst (process_data Sample.healthy Cur Conn ["data"; "log_data"]
         (log_transformer Sample.healthy) []) = inr tt
  /\ printed es
     = [FilesFound 2 ["data"; "log_data"];
        FilesProcessed 1 2; FilesProcessed 2 2]
  /\ count is_commit es = 2%nat
  /\ count is_rollback es = O.
Proof.
  apply (@clean_run_reports_every_file Sample.healthy Cur Conn
           ["data"; "log_data"] (log_transformer Sample.healthy) []).
  - split; intros; reflexivity.
  - right. split; [reflexivity|].
    intros f [<-|[<-|[]]].
    + exists [Sample.log_10]. split; reflexivity.
    + exists [Sample.log_10_anonymous; Sample.log_10]. split; reflexivity.
Defined.

Lemma main_runs_in_order_witness :
  let song_run :=
    process_data Faulty.tidy Cur Conn ["data"; "song_data"]
                 (song_transformer Faulty.tidy) [Connect] in
  let log_run :=
    process_data Faulty.tidy Cur Conn ["data"; "log_data"]
                 (log_transformer Faulty.tidy) (Connect :: snd song_run) in
  main Faulty.tidy []
  = (inr tt, Connect :: snd song_run ++ snd log_run ++ [Close])
  /\ (In Close (snd (main Faulty.tidy [])) <-> fst (main Faulty.tidy [])
                                               = inr tt).
Proof.
  exact (@main_runs_in_order Faulty.tidy [] eq_refl eq_refl).
Defined.

Lemma listed_files_end_in_json_witness :
  exists dir stem,
    Sample.file_s1 = Sample.home ++ dir ++ [(stem ++ ".json")%string]
    /\ ishidden (stem ++ ".json")%string = false.
Proof.
  apply (@listed_files_end_in_json Sample.home Sample.tree
           ["data"; "song_data"] Sample.file_s1).
  right. left. reflexivity.
Defined.

Lemma directory_named_json_is_listed_witness :
  In (Sample.home ++ ["data"; "log_data"; "2018.json"])
     (all_json_files Sample.home Faulty.odd_tree ["data"; "log_data"]).
Proof.
  exact (@directory_named_json_is_listed Sample.home Faulty.odd_tree
           ["data"; "log_data"]
           [Dir "2018.json" [File "events.json"]; File "broken.json"]
           [File "events.json"] "2018.json"
           eq_refl eq_refl (or_introl eq_refl) eq_refl eq_refl).
Defined.

Lemma no_file_listed_twice_witness :
  NoDup (all_json_files Sample.home Sample.tree ["data"; "song_data"]).
Proof.
  exact (@no_file_listed_twice Sample.home Sample.tree ["data"; "song_data"]
           [Dir "A" [File "empty.json";
                     Dir "B" [File "s1.json"; File "s2.json";
                              File "notes.txt"]]]
           eq_refl eq_refl eq_refl).
Defined.


Lemma main_cursor_failure_unbound_witness :
  main Faulty.no_cursor []
  = (inl UnboundLocalError,
     [Connect; Print (ConnectionFailed "connection already closed")]).
Proof.
  exact (@main_cursor_failure_unbound Faulty.no_cursor []
           "connection already closed" eq_refl eq_refl).
Defined.
